(** * C-MORP decision kernel: guard rail and solver bridge

    A shallow embedding of [src/guard_rail.py] and [src/solver_bridge.py].

    Modelling conventions.
    - A Python [float] is an exact rational ([Q]); rounding, infinities and
      NaN are outside the model.  Float literals are written as fractions
      ([0.95] is [95 # 100]).
    - A Python [int] is a [Z].
    - A [Dict[str, _]] that is only looked up or assigned by key is a
      [gmap string _]; the dictionary iterated by [check_system_health] is
      the list of its [items()] in insertion order.
    - Object attributes mutated by a method are threaded explicitly: a method
      takes the object and returns the updated object with its result.
    - A Python exception is the [Raises] case of [outcome]. *)

From Stdlib Require Import QArith Qminmax Qabs Lqa.
From stdpp Require Import base option list strings gmap.

Local Open Scope Q_scope.

(** ** Python runtime pieces shared by the two modules *)

Inductive exn : Type :=
  | IndexError
  | ZeroDivisionError.

Inductive outcome (A : Type) : Type :=
  | Returns (a : A)
  | Raises (e : exn).
Arguments Returns {A} a.
Arguments Raises {A} e.

#[global] Instance outcome_ret : MRet outcome := fun A a => Returns a.
#[global] Instance outcome_bind : MBind outcome := fun A B k m =>
  match m with
  | Returns a => k a
  | Raises e => Raises e
  end.

(** [try: body except Exception: handler] *)
Definition try_except {A : Type} (body : outcome A) (handler : exn -> A) : A :=
  match body with
  | Returns a => a
  | Raises e => handler e
  end.

(** [a < b] and [a > b] on floats *)
Definition Qltb (a b : Q) : bool := negb (Qle_bool b a).
Definition Qgtb (a b : Q) : bool := Qltb b a.

(** [a / b], which raises when [b] is zero *)
Definition py_div (a b : Q) : outcome Q :=
  if Qeq_bool b 0 then Raises ZeroDivisionError else Returns (a / b).

(** [l[i]] for a non-negative index [i] *)
Definition py_index (l : list Q) (i : nat) : outcome Q :=
  match l !! i with
  | Some x => Returns x
  | None => Raises IndexError
  end.

(** [l[-1]] *)
Definition py_last (l : list Q) : outcome Q :=
  match last l with
  | Some x => Returns x
  | None => Raises IndexError
  end.

(** [l[:n]]: a negative bound counts from the end *)
Definition py_slice_to (l : list Q) (n : Z) : list Q :=
  if (0 <=? n)%Z then take (Z.to_nat n) l
  else take (Z.to_nat (Z.of_nat (length l) + n)) l.

(** [[x] * n]: empty when [n] is not positive *)
Definition py_repeat (x : Q) (n : Z) : list Q := replicate (Z.to_nat n) x.

(** [range(n)] *)
Definition py_range (n : Z) : list nat := seq 0 (Z.to_nat n).

(** [min(a, b, c)] and [max(a, b)]: the first extremal argument is kept *)
Definition py_min3 (a b c : Q) : Q := Qmin (Qmin a b) c.
Definition py_max (a b : Q) : Q := Qmax a b.

(** [sum(l)], starting from the integer [0] *)
Definition py_sum (l : list Q) : Q := fold_left Qplus l 0.

(** ** guard_rail.py *)

Module guard_rail.

Inductive ConstraintType : Type :=
  | VOLTAGE
  | CURRENT
  | POWER
  | SOC
  | TEMPERATURE
  | FREQUENCY.

(** The text of a violation.  The two f-strings of [Constraint.validate] are
    kept as their fields; [message_text] lays them out for a given rendering
    of floats. *)
Inductive message : Type :=
  | below_minimum (name : string) (value min_value : Q)
  | exceeds_maximum (name : string) (value max_value : Q).

Definition message_text (repr : Q -> string) (m : message) : string :=
  match m with
  | below_minimum n v lo => n +:+ " below minimum: " +:+ repr v +:+ " < " +:+ repr lo
  | exceeds_maximum n v hi => n +:+ " exceeds maximum: " +:+ repr v +:+ " > " +:+ repr hi
  end.

Record Constraint : Type := {
  name : string;
  type : ConstraintType;
  min_value : Q;
  max_value : Q;
  critical : bool
}.

Definition validate (self : Constraint) (value : Q) : bool * option message :=
  if Qltb value (min_value self) then
    (false, Some (below_minimum (name self) value (min_value self)))
  else if Qgtb value (max_value self) then
    (false, Some (exceeds_maximum (name self) value (max_value self)))
  else (true, None).

(** One entry of [blocked_actions] *)
Record block : Type := {
  component : string;
  constraint : string;
  value : Q;
  error : option message
}.

Record GuardRail : Type := {
  constraints : gmap string (list Constraint);
  violation_count : Z;
  blocked_actions : list block
}.

Definition add_constraint (self : GuardRail) (component : string) (c : Constraint)
  : GuardRail :=
  let registered :=
    match constraints self !! component with
    | Some cs => cs
    | None => []
    end in
  {| constraints := <[component := registered ++ [c]]> (constraints self);
     violation_count := violation_count self;
     blocked_actions := blocked_actions self |}.

Definition _initialize_constraints (self : GuardRail) : GuardRail :=
  let self := add_constraint self "battery"
    {| name := "Battery SOC"; type := SOC;
       min_value := 10; max_value := 95; critical := true |} in
  let self := add_constraint self "battery"
    {| name := "Battery Current"; type := CURRENT;
       min_value := -200; max_value := 200; critical := true |} in
  let self := add_constraint self "grid"
    {| name := "Grid Voltage"; type := VOLTAGE;
       min_value := 380; max_value := 420; critical := true |} in
  let self := add_constraint self "grid"
    {| name := "Grid Frequency"; type := FREQUENCY;
       min_value := 495 # 10; max_value := 505 # 10; critical := true |} in
  add_constraint self "solar"
    {| name := "PV Temperature"; type := TEMPERATURE;
       min_value := -20; max_value := 85; critical := false |}.

Definition __init__ : GuardRail :=
  _initialize_constraints
    {| constraints := ∅; violation_count := 0%Z; blocked_actions := [] |}.

Definition _map_parameter (constraint_type : ConstraintType) : string :=
  match constraint_type with
  | VOLTAGE => "voltage"
  | CURRENT => "current"
  | POWER => "power"
  | SOC => "soc"
  | TEMPERATURE => "temperature"
  | FREQUENCY => "frequency"
  end.

(** The body of the [for constraint in self.constraints[component]] loop of
    [validate_action], threaded over the list being iterated. *)
Fixpoint validate_loop (component : string) (parameters : gmap string Q)
    (cs : list Constraint) (violations : list (option message)) (self : GuardRail)
  : list (option message) * GuardRail :=
  match cs with
  | [] => (violations, self)
  | c :: rest =>
    let param_key := _map_parameter (type c) in
    match parameters !! param_key with
    | None => validate_loop component parameters rest violations self
    | Some v =>
      let '(is_valid, error_msg) := validate c v in
      if negb is_valid then
        let violations := violations ++ [error_msg] in
        if critical c then
          let self :=
            {| constraints := constraints self;
               violation_count := (violation_count self + 1)%Z;
               blocked_actions := blocked_actions self ++
                 [{| component := component; constraint := name c;
                     value := v; error := error_msg |}] |} in
          validate_loop component parameters rest violations self
        else validate_loop component parameters rest violations self
      else validate_loop component parameters rest violations self
    end
  end.

Definition validate_action (self : GuardRail) (component : string)
    (parameters : gmap string Q) : (bool * list (option message)) * GuardRail :=
  match constraints self !! component with
  | None => ((true, []), self)
  | Some cs =>
    let '(violations, self) := validate_loop component parameters cs [] self in
    ((Nat.eqb (length violations) 0, violations), self)
  end.

Record component_report : Type := {
  valid : bool;
  violations : list (option message)
}.

Record report : Type := {
  healthy : bool;
  components : gmap string component_report;
  critical_violations : Z;
  warnings : Z
}.

(** [sum(1 for c in self.constraints.get(component, [])
         if c.critical and not c.validate(state.get(key, 0))[0])] *)
Definition critical_tally (self : GuardRail) (component : string)
    (state : gmap string Q) : Z :=
  let cs := default [] (constraints self !! component) in
  Z.of_nat (length (filter
    (fun c => critical c &&
       negb (fst (validate c (default 0 (state !! _map_parameter (type c))))) = true)
    cs)).

Fixpoint health_loop (items : list (string * gmap string Q)) (rep : report)
    (self : GuardRail) : report * GuardRail :=
  match items with
  | [] => (rep, self)
  | (component, state) :: rest =>
    let '((is_valid, violations), self) := validate_action self component state in
    let rep :=
      {| healthy := healthy rep;
         components := <[component := {| valid := is_valid; violations := violations |}]>
                         (components rep);
         critical_violations := critical_violations rep;
         warnings := warnings rep |} in
    let rep :=
      if negb is_valid then
        let critical := critical_tally self component state in
        {| healthy := false;
           components := components rep;
           critical_violations := (critical_violations rep + critical)%Z;
           warnings := (warnings rep + (Z.of_nat (length violations) - critical))%Z |}
      else rep in
    health_loop rest rep self
  end.

Definition check_system_health (self : GuardRail)
    (system_state : list (string * gmap string Q)) : report * GuardRail :=
  health_loop system_state
    {| healthy := true; components := ∅; critical_violations := 0; warnings := 0 |}
    self.

Record statistics : Type := {
  total_constraints : Z;
  stat_violation_count : Z;
  blocked_actions_count : Z;
  components_monitored : Z;
  recent_blocks : list block
}.

Definition get_statistics (self : GuardRail) : statistics :=
  {| total_constraints :=
       map_fold (fun _ cs acc => (acc + Z.of_nat (length cs))%Z) 0%Z (constraints self);
     stat_violation_count := violation_count self;
     blocked_actions_count := Z.of_nat (length (blocked_actions self));
     components_monitored := Z.of_nat (size (constraints self));
     recent_blocks :=
       drop (length (blocked_actions self) - 10) (blocked_actions self) |}.

(** *** Reading the loops of [validate_action] and [check_system_health] *)

(** The constraints registered under a component: [self.constraints.get(component, [])]. *)
Definition registered (self : GuardRail) (component : string) : list Constraint :=
  default [] (constraints self !! component).

(** What one constraint adds to [violations]: nothing when its parameter is
    absent or within bounds, its message otherwise. *)
Definition violation_of (parameters : gmap string Q) (c : Constraint)
  : option (option message) :=
  match parameters !! _map_parameter (type c) with
  | None => None
  | Some v => if fst (validate c v) then None else Some (snd (validate c v))
  end.

(** What one constraint adds to [blocked_actions]. *)
Definition block_of (component : string) (parameters : gmap string Q) (c : Constraint)
  : option block :=
  match parameters !! _map_parameter (type c) with
  | None => None
  | Some v =>
    if negb (fst (validate c v)) && critical c
    then Some {| component := component; constraint := name c;
                 value := v; error := snd (validate c v) |}
    else None
  end.

(** The violations of one component that come from non-critical constraints. *)
Definition non_critical_violations (self : GuardRail) (component : string)
    (parameters : gmap string Q) : list (option message) :=
  omap (violation_of parameters)
       (filter (fun c => critical c = false) (registered self component)).

(** The verdict of [validate_action] on one component. *)
Definition accepts (self : GuardRail) (component : string)
    (parameters : gmap string Q) : bool :=
  fst (fst (validate_action self component parameters)).

Definition Zsum (l : list Z) : Z := fold_right Z.add 0%Z l.

(** What one item of the system state adds to [critical_violations] and to
    [warnings] in [check_system_health]. *)
Definition critical_share (self : GuardRail) (it : string * gmap string Q) : Z :=
  if accepts self it.1 it.2 then 0%Z else critical_tally self it.1 it.2.

Definition warning_share (self : GuardRail) (it : string * gmap string Q) : Z :=
  if accepts self it.1 it.2 then 0%Z
  else (Z.of_nat (length (snd (fst (validate_action self it.1 it.2))))
        - critical_tally self it.1 it.2)%Z.

(** The counter and the history agree. *)
Definition counter_matches_history (self : GuardRail) : Prop :=
  violation_count self = Z.of_nat (length (blocked_actions self)).

(** What a call may do to a guard rail: the history only gets longer at its
    end, the counter does not go down, and every component keeps the
    constraints it had, in the same order, possibly followed by new ones. *)
Definition extends (s s' : GuardRail) : Prop :=
  blocked_actions s `prefix_of` blocked_actions s'
  /\ (violation_count s <= violation_count s')%Z
  /\ forall component : string,
       registered s component `prefix_of` registered s' component.

(** A call made on a guard rail after construction. *)
Inductive call : Type :=
  | call_add_constraint (component : string) (c : Constraint)
  | call_validate_action (component : string) (parameters : gmap string Q)
  | call_check_system_health (system_state : list (string * gmap string Q))
  | call_get_statistics.

Definition run_call (self : GuardRail) (c : call) : GuardRail :=
  match c with
  | call_add_constraint component c => add_constraint self component c
  | call_validate_action component parameters =>
      snd (validate_action self component parameters)
  | call_check_system_health system_state =>
      snd (check_system_health self system_state)
  | call_get_statistics => self
  end.

Definition run_calls (cs : list call) : GuardRail := fold_left run_call cs __init__.

End guard_rail.

(** ** solver_bridge.py *)

Module solver_bridge.

Inductive SolverType : Type :=
  | CVXPY
  | PYOMO
  | ORTOOLS
  | SIMPLE.

Record OptimizationResult : Type := {
  success : bool;
  objective_value : Q;
  battery_schedule : list Q;
  grid_schedule : list Q;
  solve_time_ms : Q;
  solver_used : SolverType;
  iterations : Z;
  cost_savings_pct : Q
}.

Record SolverBridge : Type := {
  preferred_solver : SolverType;
  solve_count : Z;
  total_solve_time : Q;
  failed_solves : Z
}.

Definition __init__ (preferred_solver : SolverType) : SolverBridge :=
  {| preferred_solver := preferred_solver;
     solve_count := 0;
     total_solve_time := 0;
     failed_solves := 0 |}.

Definition _generate_default_tariff (hours : Z) : list Q :=
  map (fun hour : nat =>
         let hour_of_day := (Z.of_nat hour mod 24)%Z in
         if ((6 <=? hour_of_day) && (hour_of_day <? 9)
             || (18 <=? hour_of_day) && (hour_of_day <? 22))%Z then 85 # 10
         else if ((9 <=? hour_of_day) && (hour_of_day <? 18))%Z then 65 # 10
         else 45 # 10)
      (py_range hours).

Definition _pad_forecast (forecast : list Q) (target_length : Z) : outcome (list Q) :=
  if (target_length <=? Z.of_nat (length forecast))%Z then
    mret (py_slice_to forecast target_length)
  else
    let padding_needed := (target_length - Z.of_nat (length forecast))%Z in
    x ← py_last forecast;
    mret (forecast ++ py_repeat x padding_needed).

(** The local variables of [_solve_simple_heuristic] that the loop updates.
    The two schedules carry a trailing underscore to keep them apart from the
    fields of [OptimizationResult]. *)
Record locals : Type := {
  battery_schedule_ : list Q;
  grid_schedule_ : list Q;
  soc : Q;
  total_cost : Q;
  baseline_cost : Q
}.

Section Heuristic.
Variables (solar load : list Q) (battery_capacity : Q) (tariff : list Q).

Let max_charge_rate : Q := battery_capacity * (1 # 2).
Let max_discharge_rate : Q := battery_capacity * (1 # 2).
Let efficiency : Q := 95 # 100.

(** One pass through the body of [for hour in range(horizon)]. *)
Definition hour_body (v : locals) (hour : nat) : outcome locals :=
  solar_h ← py_index solar hour;
  load_h ← py_index load hour;
  let net_power := solar_h - load_h in
  tariff_h ← py_index tariff hour;
  let baseline_cost := baseline_cost v + py_max 0 (- net_power) * tariff_h in
  if Qgtb net_power 0 then
    if Qltb (soc v) 90 then
      let charge_amount :=
        py_min3 net_power max_charge_rate ((90 - soc v) / 100 * battery_capacity) in
      charged ← py_div charge_amount battery_capacity;
      mret {| battery_schedule_ := battery_schedule_ v ++ [charge_amount];
              grid_schedule_ := grid_schedule_ v ++ [net_power - charge_amount];
              soc := soc v + charged * 100 * efficiency;
              total_cost := total_cost v;
              baseline_cost := baseline_cost |}
    else
      mret {| battery_schedule_ := battery_schedule_ v ++ [0];
              grid_schedule_ := grid_schedule_ v ++ [net_power];
              soc := soc v;
              total_cost := total_cost v;
              baseline_cost := baseline_cost |}
  else
    let deficit := Qabs net_power in
    avg_tariff ← py_div (py_sum tariff) (inject_Z (Z.of_nat (length tariff)));
    if Qgtb tariff_h (avg_tariff * (12 # 10)) && Qgtb (soc v) 20 then
      let discharge_amount :=
        py_min3 deficit max_discharge_rate ((soc v - 20) / 100 * battery_capacity) in
      discharged ← py_div discharge_amount battery_capacity;
      mret {| battery_schedule_ := battery_schedule_ v ++ [- discharge_amount];
              grid_schedule_ := grid_schedule_ v ++ [deficit - discharge_amount];
              soc := soc v - discharged * 100 / efficiency;
              total_cost := total_cost v + (deficit - discharge_amount) * tariff_h;
              baseline_cost := baseline_cost |}
    else
      mret {| battery_schedule_ := battery_schedule_ v ++ [0];
              grid_schedule_ := grid_schedule_ v ++ [deficit];
              soc := soc v;
              total_cost := total_cost v + deficit * tariff_h;
              baseline_cost := baseline_cost |}.

(** The loop, over the hours still to run. *)
Fixpoint hour_loop (hours : list nat) (v : locals) : outcome locals :=
  match hours with
  | [] => mret v
  | hour :: rest => v' ← hour_body v hour; hour_loop rest v'
  end.

(** The values of the locals after each hour that ran to its end, in
    order; the list stops at the hour whose body raises. *)
Fixpoint hour_trace (hours : list nat) (v : locals) : list locals :=
  match hours with
  | [] => []
  | hour :: rest =>
    match hour_body v hour with
    | Returns v' => v' :: hour_trace rest v'
    | Raises _ => []
    end
  end.

Definition initial_locals (initial_soc : Q) : locals :=
  {| battery_schedule_ := []; grid_schedule_ := []; soc := initial_soc;
     total_cost := 0; baseline_cost := 0 |}.

Definition savings (v : locals) : Q :=
  if Qgtb (baseline_cost v) 0
  then (baseline_cost v - total_cost v) / baseline_cost v * 100
  else 0.

(** Outside the section the arguments come in the order [solar], [load],
    [battery_capacity], [tariff], [initial_soc], [horizon]. *)
Definition _solve_simple_heuristic (initial_soc : Q) (horizon : Z)
  : outcome OptimizationResult :=
  v ← hour_loop (py_range horizon) (initial_locals initial_soc);
  mret {| success := true;
          objective_value := total_cost v;
          battery_schedule := battery_schedule_ v;
          grid_schedule := grid_schedule_ v;
          solve_time_ms := 0;
          solver_used := SIMPLE;
          iterations := horizon;
          cost_savings_pct := savings v |}.
End Heuristic.

(** [optimize_energy_schedule]; [time n] is what the [n]-th call of
    [time.time()] made by this invocation returns, and [grid_tariff = None]
    is the omitted argument. *)
Definition optimize_energy_schedule (self : SolverBridge) (time : nat -> Q)
    (solar_forecast load_forecast : list Q) (battery_capacity initial_soc : Q)
    (grid_tariff : option (list Q)) (horizon_hours : Z)
  : outcome (OptimizationResult * SolverBridge) :=
  let start_time := time 0%nat in
  let grid_tariff :=
    match grid_tariff with
    | None => _generate_default_tariff horizon_hours
    | Some t => t
    end in
  solar_forecast ← _pad_forecast solar_forecast horizon_hours;
  load_forecast ← _pad_forecast load_forecast horizon_hours;
  mret (try_except
    (result ← _solve_simple_heuristic solar_forecast load_forecast
                 battery_capacity grid_tariff initial_soc horizon_hours;
     let solve_time := (time 1%nat - start_time) * 1000 in
     let result :=
       {| success := success result;
          objective_value := objective_value result;
          battery_schedule := battery_schedule result;
          grid_schedule := grid_schedule result;
          solve_time_ms := solve_time;
          solver_used := SIMPLE;
          iterations := iterations result;
          cost_savings_pct := cost_savings_pct result |} in
     mret (result,
           {| preferred_solver := preferred_solver self;
              solve_count := (solve_count self + 1)%Z;
              total_solve_time := total_solve_time self + solve_time;
              failed_solves := failed_solves self |}))
    (fun _ =>
       ({| success := false;
           objective_value := 0;
           battery_schedule := py_repeat 0 horizon_hours;
           grid_schedule := load_forecast;
           solve_time_ms := (time 1%nat - start_time) * 1000;
           solver_used := SIMPLE;
           iterations := 0;
           cost_savings_pct := 0 |},
        {| preferred_solver := preferred_solver self;
           solve_count := solve_count self;
           total_solve_time := total_solve_time self;
           failed_solves := (failed_solves self + 1)%Z |}))).

Record performance_metrics : Type := {
  total_solves : Z;
  metric_failed_solves : Z;
  success_rate_pct : Q;
  avg_solve_time_ms : Q;
  total_solve_time_s : Q
}.

(** [get_performance_metrics]; the two divisions by [solve_count] sit under
    the guard [solve_count > 0] and so cannot raise.  The key
    ['failed_solves'] of the returned dict is the field
    [metric_failed_solves]. *)
Definition get_performance_metrics (self : SolverBridge) : performance_metrics :=
  let avg_solve_time :=
    if (0 <? solve_count self)%Z
    then total_solve_time self / inject_Z (solve_count self)
    else 0 in
  let success_rate :=
    if (0 <? solve_count self)%Z
    then inject_Z (solve_count self - failed_solves self)
         / inject_Z (solve_count self) * 100
    else 0 in
  {| total_solves := solve_count self;
     metric_failed_solves := failed_solves self;
     success_rate_pct := success_rate;
     avg_solve_time_ms := avg_solve_time;
     total_solve_time_s := total_solve_time self / 1000 |}.

(** The arguments of one call of [optimize_energy_schedule], with the clock
    readings the call gets. *)
Record request : Type := {
  req_time : nat -> Q;
  req_solar_forecast : list Q;
  req_load_forecast : list Q;
  req_battery_capacity : Q;
  req_initial_soc : Q;
  req_grid_tariff : option (list Q);
  req_horizon_hours : Z
}.

Definition call_optimize (self : SolverBridge) (rq : request)
  : outcome (OptimizationResult * SolverBridge) :=
  optimize_energy_schedule self (req_time rq) (req_solar_forecast rq)
    (req_load_forecast rq) (req_battery_capacity rq) (req_initial_soc rq)
    (req_grid_tariff rq) (req_horizon_hours rq).

(** The bridge after a call; a call that raises has not touched it. *)
Definition after_call (self : SolverBridge) (rq : request) : SolverBridge :=
  match call_optimize self rq with
  | Returns (_, self') => self'
  | Raises _ => self
  end.

(** The bridge after a sequence of calls made on a new one. *)
Definition after_calls (preferred : SolverType) (rqs : list request) : SolverBridge :=
  fold_left after_call rqs (__init__ preferred).

(** The price band of an hour of the day in the default tariff. *)
Definition band_price (hour_of_day : Z) : Q :=
  if ((6 <=? hour_of_day) && (hour_of_day <? 9)
      || (18 <=? hour_of_day) && (hour_of_day <? 22))%Z then 85 # 10
  else if ((9 <=? hour_of_day) && (hour_of_day <? 18))%Z then 65 # 10
  else 45 # 10.


(** *** Reading the padding, the loop and the result *)

(** A forecast cut to its first [h] entries, or extended to [h] entries by
    copies of its last one. *)
Definition padded (forecast : list Q) (h : Z) : list Q :=
  take (Z.to_nat h) forecast
  ++ replicate (Z.to_nat h - length forecast) (default 0 (last forecast)).

(** What a caller sees of the planner's answer once the timing and the
    counters of the bridge are left out. *)
Definition schedules_and_objective (o : outcome (OptimizationResult * SolverBridge))
  : outcome (list Q * list Q * Q) :=
  match o with
  | Returns (r, _) => Returns (battery_schedule r, grid_schedule r, objective_value r)
  | Raises e => Raises e
  end.

(** The bill of the deficit hours when no energy comes from the battery:
    every hour whose load exceeds the solar generation pays the difference at
    that hour's tariff. *)
Definition deficit_only_bill (solar load tariff : list Q) (hours : list nat) : Q :=
  fold_right Qplus 0
    (map (fun hour : nat =>
            let deficit := default 0 (load !! hour) - default 0 (solar !! hour) in
            (if Qltb 0 deficit then deficit else 0) * default 0 (tariff !! hour))
         hours).

End solver_bridge.

(** * Properties of the guard rail *)

Import guard_rail.

Lemma Qltb_lt (a b : Q) : Qltb a b = true <-> a < b.
Proof.
  unfold Qltb. rewrite negb_true_iff. split.
  - intros H. apply Qnot_le_lt. intros Hle.
    apply Qle_bool_iff in Hle. congruence.
  - intros H. destruct (Qle_bool b a) eqn:E; [|reflexivity].
    apply Qle_bool_iff in E. exfalso. exact (Qlt_not_le _ _ H E).
Qed.

Lemma Qltb_ge (a b : Q) : Qltb a b = false <-> b <= a.
Proof.
  unfold Qltb. rewrite negb_false_iff. apply Qle_bool_iff.
Qed.


Lemma validate_loop_spec (component : string) (parameters : gmap string Q)
    (cs : list Constraint) :
  forall (violations : list (option message)) (self : GuardRail),
    validate_loop component parameters cs violations self =
    (violations ++ omap (violation_of parameters) cs,
     {| constraints := constraints self;
        violation_count :=
          (violation_count self
           + Z.of_nat (length (omap (block_of component parameters) cs)))%Z;
        blocked_actions :=
          blocked_actions self ++ omap (block_of component parameters) cs |}).
Proof.
  induction cs as [|c rest IH]; intros violations self; simpl.
  - rewrite !app_nil_r. simpl. rewrite Z.add_0_r. now destruct self.
  - change (list_omap Constraint (option message) (violation_of parameters) rest)
      with (omap (violation_of parameters) rest).
    change (list_omap Constraint block (block_of component parameters) rest)
      with (omap (block_of component parameters) rest).
    set (V := omap (violation_of parameters) rest) in *.
    set (B := omap (block_of component parameters) rest) in *.
    unfold violation_of, block_of.
    destruct (parameters !! _map_parameter (type c)) as [v|]; [|apply IH].
    destruct (validate c v) as [is_valid error_msg]; simpl.
    destruct is_valid; simpl; [apply IH|].
    destruct (critical c); simpl; rewrite IH; simpl.
    + rewrite <- !app_assoc. simpl. do 2 f_equal. lia.
    + now rewrite <- app_assoc.
Qed.

Lemma validate_action_spec (self : GuardRail) (component : string)
    (parameters : gmap string Q) :
  validate_action self component parameters =
  (let violations := omap (violation_of parameters) (registered self component) in
   let blocks := omap (block_of component parameters) (registered self component) in
   ((Nat.eqb (length violations) 0, violations),
    {| constraints := constraints self;
       violation_count := (violation_count self + Z.of_nat (length blocks))%Z;
       blocked_actions := blocked_actions self ++ blocks |})).
Proof.
  unfold validate_action, registered.
  destruct (constraints self !! component) as [cs|]; simpl.
  - now rewrite validate_loop_spec.
  - rewrite app_nil_r. simpl. rewrite Z.add_0_r. now destruct self.
Qed.





(** C6: every registered constraint that is critical and whose present
    parameter is out of bounds adds one to [violation_count] and appends one
    block record [{component, constraint, value, error}] to
    [blocked_actions], in registration order, and nothing else changes them.
    On a fresh guard rail [validate_action("battery", {soc: 5.0, current:
    -150.0})] is rejected with the single message of "Battery SOC" (5 below
    the minimum 10), the counter goes from 0 to 1 and one block is recorded. *)
Theorem validate_action_blocks_critical :
  (forall (self : GuardRail) (component : string) (parameters : gmap string Q),
      let self' := snd (validate_action self component parameters) in
      let blocks := omap (block_of component parameters) (registered self component) in
      violation_count self' = (violation_count self + Z.of_nat (length blocks))%Z
      /\ blocked_actions self' = blocked_actions self ++ blocks
      /\ constraints self' = constraints self)
  /\ (let parameters : gmap string Q := <[ "soc" := 5 ]> {[ "current" := -150 ]} in
      let msg := below_minimum "Battery SOC" 5 10 in
      validate_action __init__ "battery" parameters =
        ((false, [Some msg]),
         {| constraints := constraints __init__;
            violation_count := 1;
            blocked_actions :=
              [{| component := "battery"; constraint := "Battery SOC";
                  value := 5; error := Some msg |}] |})
      /\ violation_count __init__ = 0%Z
      /\ forall repr : Q -> string,
           message_text repr msg =
           "Battery SOC below minimum: " +:+ repr 5 +:+ " < " +:+ repr 10).
Proof.
  split.
  - intros self component parameters. rewrite validate_action_spec.
    cbn. auto.
  - cbn zeta. split; [vm_compute; reflexivity|].
    split; reflexivity.
Qed.

Lemma validate_action_keeps_match (self : GuardRail) (component : string)
    (parameters : gmap string Q) :
  counter_matches_history self ->
  counter_matches_history (snd (validate_action self component parameters)).
Proof.
  unfold counter_matches_history. intros H.
  rewrite validate_action_spec. cbn.
  rewrite length_app, H. lia.
Qed.

Lemma health_loop_keeps_match (items : list (string * gmap string Q)) :
  forall (rep : report) (self : GuardRail),
    counter_matches_history self ->
    counter_matches_history (snd (health_loop items rep self)).
Proof.
  induction items as [|[component state] rest IH]; intros rep self H; simpl.
  - exact H.
  - pose proof (validate_action_keeps_match self component state H) as H'.
    destruct (validate_action self component state) as [[is_valid violations] self'].
    apply IH. exact H'.
Qed.

Lemma run_call_keeps_match (self : GuardRail) (c : call) :
  counter_matches_history self -> counter_matches_history (run_call self c).
Proof.
  destruct c; simpl; intros H.
  - exact H.
  - now apply validate_action_keeps_match.
  - now apply health_loop_keeps_match.
  - exact H.
Qed.

Lemma fold_run_call_keeps_match (cs : list call) :
  forall self : GuardRail,
    counter_matches_history self ->
    counter_matches_history (fold_left run_call cs self).
Proof.
  induction cs as [|c cs IH]; intros self H; simpl; [exact H|].
  apply IH, run_call_keeps_match, H.
Qed.

(** C10: after any sequence of calls made on a freshly constructed guard
    rail ([add_constraint], [validate_action], [check_system_health],
    [get_statistics], in any order and number), [get_statistics] reports a
    [violation_count] equal to [blocked_actions_count]. *)
Theorem violation_count_matches_blocked_actions (cs : list call) :
  stat_violation_count (get_statistics (run_calls cs)) =
  blocked_actions_count (get_statistics (run_calls cs)).
Proof.
  unfold get_statistics. simpl.
  apply (fold_run_call_keeps_match cs __init__). reflexivity.
Qed.

(** Registering a second "Battery SOC" record with bounds [[0, 100]] on a
    fresh guard rail leaves two records of that name under "battery", and
    [soc = 5], which the new bounds accept, is still rejected by the first
    record's bounds [[10, 95]]. *)
Lemma add_constraint_same_name_keeps_both :
  let c_new := {| name := "Battery SOC"; type := SOC;
                  min_value := 0; max_value := 100; critical := true |} in
  let self := add_constraint __init__ "battery" c_new in
  (exists c_old, c_old ∈ registered __init__ "battery" /\ name c_old = name c_new)
  /\ length (filter (fun c => name c = "Battery SOC") (registered self "battery")) = 2%nat
  /\ fst (validate c_new 5) = true
  /\ fst (validate_action self "battery" {[ "soc" := 5 ]}) =
       (false, [Some (below_minimum "Battery SOC" 5 10)]).
Proof.
  cbn zeta. split.
  - eexists. split; [apply list_elem_of_here | reflexivity].
  - split; [vm_compute; reflexivity|].
    split; vm_compute; reflexivity.
Qed.

(** C1 (amended): [add_constraint] appends the record at the end of the
    component's list and keeps every record already there, also one of the
    same name; the lists of the other components, the counter and the
    history are untouched.  Afterwards [validate_action] reports the
    violations of the records registered before, followed by the violation
    of the new record if it has one. *)
Theorem add_constraint_appends (self : GuardRail) (component : string)
    (c : Constraint) :
  registered (add_constraint self component c) component =
    registered self component ++ [c]
  /\ delete component (constraints (add_constraint self component c)) =
     delete component (constraints self)
  /\ violation_count (add_constraint self component c) = violation_count self
  /\ blocked_actions (add_constraint self component c) = blocked_actions self
  /\ forall parameters : gmap string Q,
       snd (fst (validate_action (add_constraint self component c) component parameters)) =
       snd (fst (validate_action self component parameters))
       ++ omap (violation_of parameters) [c].
Proof.
  assert (Hreg : registered (add_constraint self component c) component =
                 registered self component ++ [c]).
  { unfold registered, add_constraint. simpl.
    rewrite lookup_insert_eq. simpl.
    now destruct (constraints self !! component). }
  split; [exact Hreg|].
  split; [apply delete_insert_eq|].
  split; [reflexivity|]. split; [reflexivity|].
  intros parameters. rewrite !validate_action_spec. cbn [fst snd].
  rewrite Hreg. apply omap_app.
Qed.

(** *** [check_system_health] *)

Lemma validate_action_verdict_by_constraints (s1 s2 : GuardRail) (component : string)
    (parameters : gmap string Q) :
  constraints s1 = constraints s2 ->
  fst (validate_action s1 component parameters) =
  fst (validate_action s2 component parameters).
Proof.
  intros H. rewrite !validate_action_spec. unfold registered. now rewrite H.
Qed.

Lemma validate_action_keeps_constraints (self : GuardRail) (component : string)
    (parameters : gmap string Q) :
  constraints (snd (validate_action self component parameters)) = constraints self.
Proof. now rewrite validate_action_spec. Qed.

Lemma critical_tally_by_constraints (s1 s2 : GuardRail) (component : string)
    (state : gmap string Q) :
  constraints s1 = constraints s2 ->
  critical_tally s1 component state = critical_tally s2 component state.
Proof. intros H. unfold critical_tally. now rewrite H. Qed.

Lemma health_loop_report (self0 : GuardRail) (items : list (string * gmap string Q)) :
  forall (rep : report) (self : GuardRail),
    constraints self = constraints self0 ->
    let r := fst (health_loop items rep self) in
    healthy r = healthy rep && forallb (fun it => accepts self0 it.1 it.2) items
    /\ critical_violations r =
       (critical_violations rep + Zsum (map (critical_share self0) items))%Z
    /\ warnings r = (warnings rep + Zsum (map (warning_share self0) items))%Z.
Proof.
  induction items as [|[component state] rest IH]; intros rep self Hcs; simpl.
  - rewrite andb_true_r, !Z.add_0_r. auto.
  - pose proof (validate_action_verdict_by_constraints self self0 component state Hcs) as Hv.
    pose proof (validate_action_keeps_constraints self component state) as Hk.
    destruct (validate_action self component state)
      as [[is_valid violations] self'] eqn:E.
    cbn [fst snd] in Hv, Hk.
    assert (Hcs' : constraints self' = constraints self0) by congruence.
    assert (Hacc : accepts self0 component state = is_valid)
      by (unfold accepts; now rewrite <- Hv).
    assert (HC : critical_share self0 (component, state) =
                 if is_valid then 0%Z else critical_tally self' component state).
    { unfold critical_share. cbn [fst snd]. rewrite Hacc.
      now rewrite (critical_tally_by_constraints self' self0). }
    assert (HW : warning_share self0 (component, state) =
                 if is_valid then 0%Z
                 else (Z.of_nat (length violations)
                       - critical_tally self' component state)%Z).
    { unfold warning_share. cbn [fst snd]. rewrite Hacc, <- Hv. cbn [fst snd].
      now rewrite (critical_tally_by_constraints self' self0). }
    cbn [map Zsum fold_right forallb fst snd]. rewrite HC, HW, Hacc.
    fold (Zsum (map (critical_share self0) rest)).
    fold (Zsum (map (warning_share self0) rest)).
    destruct is_valid; cbn [negb].
    + destruct (IH {| healthy := healthy rep;
                      components := <[component := {| valid := true; violations := violations |}]>
                                      (components rep);
                      critical_violations := critical_violations rep;
                      warnings := warnings rep |} self' Hcs') as (H1 & H2 & H3).
      cbn [healthy critical_violations warnings] in H1, H2, H3.
      rewrite H1, H2, H3. repeat split; lia.
    + destruct (IH {| healthy := false;
                      components := <[component := {| valid := false; violations := violations |}]>
                                      (components rep);
                      critical_violations :=
                        (critical_violations rep + critical_tally self' component state)%Z;
                      warnings :=
                        (warnings rep + (Z.of_nat (length violations)
                                         - critical_tally self' component state))%Z |}
                   self' Hcs') as (H1 & H2 & H3).
      cbn [healthy critical_violations warnings] in H1, H2, H3.
      rewrite H1, H2, H3, andb_false_r. repeat split; lia.
Qed.

(** What [check_system_health] reports: [healthy] exactly when
    [validate_action] accepts every component of the input;
    [critical_violations] is, summed over the rejected components, the number
    of critical constraints that fail with absent parameters read as [0];
    [warnings] is, summed over the rejected components, the number of
    reported violations minus that tally. *)
Lemma check_system_health_report (self : GuardRail)
    (system_state : list (string * gmap string Q)) :
  let r := fst (check_system_health self system_state) in
  (healthy r = true <->
   Forall (fun it => fst (fst (validate_action self it.1 it.2)) = true) system_state)
  /\ critical_violations r = Zsum (map (critical_share self) system_state)
  /\ warnings r = Zsum (map (warning_share self) system_state).
Proof.
  unfold check_system_health.
  destruct (health_loop_report self system_state
              {| healthy := true; components := ∅;
                 critical_violations := 0; warnings := 0 |} self eq_refl)
    as (H1 & H2 & H3).
  cbn zeta. simpl in *. rewrite H1, H2, H3.
  split; [|split; reflexivity].
  rewrite forallb_forall, Forall_forall. unfold accepts.
  split; intros H it Hit; apply H; now apply list_elem_of_In.
Qed.

(** The health check of the specification's example,
    [{"grid": {voltage: 430.0, frequency: 50.0}}]. *)
Lemma check_system_health_grid_overvoltage :
  let r := fst (check_system_health __init__
                  [("grid", <[ "voltage" := 430 ]> {[ "frequency" := 50 ]})]) in
  healthy r = false /\ critical_violations r = 1%Z /\ warnings r = 0%Z.
Proof. vm_compute. auto. Qed.

(** C4: on [{"grid": {voltage: 430.0}}] the only violation that
    [validate_action] reports is the critical "Grid Voltage" one and no
    non-critical constraint is violated, yet [check_system_health] counts two
    critical violations (the absent frequency is read as 0, below 49.5) and
    reports [warnings = 1 - 2 = -1], not the number of non-critical
    violations, which is 0. *)
Theorem check_system_health_negative_warnings :
  let state : gmap string Q := {[ "voltage" := 430 ]} in
  let r := fst (check_system_health __init__ [("grid", state)]) in
  fst (validate_action __init__ "grid" state) =
    (false, [Some (exceeds_maximum "Grid Voltage" 430 420)])
  /\ non_critical_violations __init__ "grid" state = []
  /\ healthy r = false
  /\ critical_violations r = 2%Z
  /\ warnings r = (-1)%Z.
Proof. vm_compute. auto 6. Qed.

(** * Further properties of the guard rail *)

(** *** Bounds and parameter keys *)



(** A rejection always comes with a message: it names the constraint, repeats
    the value and quotes the bound that was crossed, the minimum when the
    value is below it and the maximum otherwise. *)
Lemma validate_rejection_message (c : Constraint) (v : Q) :
  fst (validate c v) = false ->
  (v < min_value c
   /\ snd (validate c v) = Some (below_minimum (name c) v (min_value c)))
  \/ (min_value c <= v /\ max_value c < v
      /\ snd (validate c v) = Some (exceeds_maximum (name c) v (max_value c))).
Proof.
  unfold validate, Qgtb.
  destruct (Qltb v (min_value c)) eqn:Hlo; cbn [fst snd].
  - intros _. left. apply Qltb_lt in Hlo. auto.
  - destruct (Qltb (max_value c) v) eqn:Hhi; cbn [fst snd]; [|discriminate].
    intros _. right. apply Qltb_ge in Hlo. apply Qltb_lt in Hhi. auto.
Qed.

Lemma validate_rejection_message_witness :
  (430 < 380
   /\ snd (validate {| name := "Grid Voltage"; type := VOLTAGE; min_value := 380;
                       max_value := 420; critical := true |} 430)
      = Some (below_minimum "Grid Voltage" 430 380))
  \/ (380 <= 430 /\ 420 < 430
      /\ snd (validate {| name := "Grid Voltage"; type := VOLTAGE; min_value := 380;
                          max_value := 420; critical := true |} 430)
         = Some (exceeds_maximum "Grid Voltage" 430 420)).
Proof.
  apply (validate_rejection_message
           {| name := "Grid Voltage"; type := VOLTAGE; min_value := 380;
              max_value := 420; critical := true |} 430).
  reflexivity.
Defined.

(** X2: Two constraint types never read the same parameter key. *)
Lemma _map_parameter_injective (t1 t2 : ConstraintType) :
  _map_parameter t1 = _map_parameter t2 -> t1 = t2.
Proof. destruct t1, t2; simpl; intros H; (reflexivity || discriminate H). Qed.

Lemma _map_parameter_injective_witness : SOC = SOC.
Proof. apply (_map_parameter_injective SOC SOC). reflexivity. Defined.

(** *** What a call to [validate_action] can and cannot change *)

Lemma block_of_needs_violation (component : string) (parameters : gmap string Q)
    (c : Constraint) :
  violation_of parameters c = None -> block_of component parameters c = None.
Proof.
  unfold violation_of, block_of.
  destruct (parameters !! _map_parameter (type c)) as [v|]; [|reflexivity].
  destruct (fst (validate c v)); [reflexivity | discriminate].
Qed.

Lemma omap_cons_eq {A B : Type} (f : A -> option B) (x : A) (l : list A) :
  omap f (x :: l) = match f x with Some y => y :: omap f l | None => omap f l end.
Proof. reflexivity. Qed.

Lemma blocks_le_violations (component : string) (parameters : gmap string Q)
    (cs : list Constraint) :
  (length (omap (block_of component parameters) cs)
   <= length (omap (violation_of parameters) cs))%nat
  /\ (length (omap (violation_of parameters) cs) <= length cs)%nat.
Proof.
  induction cs as [|c cs [IH1 IH2]]; [simpl; lia|].
  rewrite !omap_cons_eq.
  destruct (violation_of parameters c) eqn:E.
  - destruct (block_of component parameters c); simpl; lia.
  - rewrite (block_of_needs_violation _ _ _ E). simpl. lia.
Qed.

(** X3: A call adds at most one block record per reported violation and reports
    at most one violation per constraint registered under the component. *)
Lemma validate_action_counts (self : GuardRail) (component : string)
    (parameters : gmap string Q) :
  let violations := snd (fst (validate_action self component parameters)) in
  let self' := snd (validate_action self component parameters) in
  (length (blocked_actions self')
   <= length (blocked_actions self) + length violations)%nat
  /\ (length violations <= length (registered self component))%nat.
Proof.
  rewrite validate_action_spec. cbn [fst snd blocked_actions].
  rewrite length_app.
  destruct (blocks_le_violations component parameters (registered self component)).
  lia.
Qed.

Lemma accepted_action_result (self : GuardRail) (component : string)
    (parameters : gmap string Q) :
  omap (violation_of parameters) (registered self component) = [] ->
  validate_action self component parameters = ((true, []), self).
Proof.
  intros H. rewrite validate_action_spec. cbn zeta.
  destruct (blocks_le_violations component parameters (registered self component))
    as [Hb _].
  rewrite H in Hb. simpl in Hb.
  assert (Hnil : omap (block_of component parameters) (registered self component) = [])
    by (apply length_zero_iff_nil; lia).
  rewrite H, Hnil. simpl. rewrite app_nil_r, Z.add_0_r. now destruct self.
Qed.

(** X4: An accepted action leaves the guard rail exactly as it was: no counter
    change, no block record, and an empty violation list. *)
Lemma validate_action_accepted_is_silent (self : GuardRail) (component : string)
    (parameters : gmap string Q) :
  fst (fst (validate_action self component parameters)) = true ->
  validate_action self component parameters = ((true, []), self).
Proof.
  intros H. apply accepted_action_result.
  rewrite validate_action_spec in H. cbn [fst snd] in H.
  now apply Nat.eqb_eq, length_zero_iff_nil in H.
Qed.

Lemma validate_action_accepted_is_silent_witness :
  validate_action guard_rail.__init__ "battery"
    (<[ "soc" := 45 ]> {[ "current" := 50 ]})
  = ((true, []), guard_rail.__init__).
Proof.
  apply (validate_action_accepted_is_silent guard_rail.__init__ "battery"
           (<[ "soc" := 45 ]> {[ "current" := 50 ]})).
  vm_compute. reflexivity.
Defined.


(** *** What any call keeps *)

Lemma health_loop_state (items : list (string * gmap string Q)) :
  forall (rep : report) (self : GuardRail),
    snd (health_loop items rep self) =
    fold_left (fun s it => snd (validate_action s it.1 it.2)) items self.
Proof.
  induction items as [|[component state] rest IH]; intros rep self; simpl.
  - reflexivity.
  - destruct (validate_action self component state)
      as [[is_valid violations] self'].
    apply IH.
Qed.

(** X6: On the guard rail itself a health check does what one [validate_action]
    per component does, in the order of the input. *)
Lemma check_system_health_state (self : GuardRail)
    (system_state : list (string * gmap string Q)) :
  snd (check_system_health self system_state) =
  fold_left (fun s it => snd (validate_action s it.1 it.2)) system_state self.
Proof. apply health_loop_state. Qed.

Lemma extends_refl (s : GuardRail) : extends s s.
Proof. repeat split; try reflexivity. Qed.

Lemma extends_trans (s1 s2 s3 : GuardRail) :
  extends s1 s2 -> extends s2 s3 -> extends s1 s3.
Proof.
  intros (H1 & H2 & H3) (K1 & K2 & K3). repeat split.
  - etransitivity; eassumption.
  - lia.
  - intros component. etransitivity; [apply H3 | apply K3].
Qed.

Lemma validate_action_extends (self : GuardRail) (component : string)
    (parameters : gmap string Q) :
  extends self (snd (validate_action self component parameters)).
Proof.
  rewrite validate_action_spec. unfold extends, registered. cbn.
  repeat split.
  - now apply prefix_app_r.
  - lia.
  - intros component'. reflexivity.
Qed.

Lemma add_constraint_extends (self : GuardRail) (component : string)
    (c : Constraint) :
  extends self (add_constraint self component c).
Proof.
  repeat split; try reflexivity.
  intros other. destruct (decide (other = component)) as [->|Hne].
  - unfold registered, add_constraint. cbn [constraints].
    rewrite lookup_insert_eq. cbn [default from_option id].
    destruct (constraints self !! component); now apply prefix_app_r.
  - unfold registered, add_constraint. cbn.
    now rewrite lookup_insert_ne by congruence.
Qed.

Lemma run_call_extends (self : GuardRail) (c : call) :
  extends self (run_call self c).
Proof.
  destruct c as [component c | component parameters | system_state |]; simpl.
  - apply add_constraint_extends.
  - apply validate_action_extends.
  - unfold check_system_health. rewrite health_loop_state.
    revert self. induction system_state as [|[component state] rest IH];
      intros self; simpl.
    + apply extends_refl.
    + eapply extends_trans; [apply validate_action_extends | apply IH].
  - apply extends_refl.
Qed.

Lemma fold_run_call_extends (cs : list call) :
  forall self : GuardRail, extends self (fold_left run_call cs self).
Proof.
  induction cs as [|c cs IH]; intros self; simpl.
  - apply extends_refl.
  - eapply extends_trans; [apply run_call_extends | apply IH].
Qed.

(** X5: The history is append-only and the registry only grows: whatever calls
    follow, the block records written so far stay in place at the front of
    [blocked_actions], [violation_count] does not decrease, and no registered
    constraint is dropped, replaced or reordered. *)
Lemma guard_rail_only_grows (cs1 cs2 : list call) :
  blocked_actions (run_calls cs1) `prefix_of` blocked_actions (run_calls (cs1 ++ cs2))
  /\ (violation_count (run_calls cs1) <= violation_count (run_calls (cs1 ++ cs2)))%Z
  /\ forall component : string,
       registered (run_calls cs1) component
       `prefix_of` registered (run_calls (cs1 ++ cs2)) component.
Proof.
  unfold run_calls. rewrite fold_left_app.
  apply (fold_run_call_extends cs2).
Qed.


(** *** The counters of a health report *)

Lemma Zsum_map_add {A : Type} (f g : A -> Z) (l : list A) :
  (Zsum (map f l) + Zsum (map g l))%Z = Zsum (map (fun x => (f x + g x)%Z) l).
Proof. induction l as [|x l IH]; simpl; lia. Qed.

Lemma Zsum_map_le {A : Type} (f g : A -> Z) (l : list A) :
  (forall x, (f x <= g x)%Z) -> (Zsum (map f l) <= Zsum (map g l))%Z.
Proof.
  intros H. induction l as [|x l IH]; simpl; [lia|]. specialize (H x). lia.
Qed.

Lemma Zsum_map_ext_in {A : Type} (f g : A -> Z) (l : list A) :
  (forall x, x ∈ l -> f x = g x) -> Zsum (map f l) = Zsum (map g l).
Proof.
  intros H. induction l as [|x l IH]; simpl; [reflexivity|].
  rewrite (H x) by apply list_elem_of_here.
  rewrite IH; [reflexivity|]. intros y Hy. apply H. now apply list_elem_of_further.
Qed.

Lemma accepts_no_violation (self : GuardRail) (component : string)
    (parameters : gmap string Q) :
  accepts self component parameters = true <->
  omap (violation_of parameters) (registered self component) = [].
Proof.
  unfold accepts. rewrite validate_action_spec. cbn [fst snd].
  now rewrite Nat.eqb_eq, length_zero_iff_nil.
Qed.

Lemma violations_of_action (self : GuardRail) (component : string)
    (parameters : gmap string Q) :
  snd (fst (validate_action self component parameters)) =
  omap (violation_of parameters) (registered self component).
Proof. now rewrite validate_action_spec. Qed.

(** X7: The two counters of the report add up to the number of violations that
    [validate_action] reports over all the components of the input. *)
Lemma check_system_health_counters_sum (self : GuardRail)
    (system_state : list (string * gmap string Q)) :
  let r := fst (check_system_health self system_state) in
  (critical_violations r + warnings r)%Z =
  Zsum (map (fun it => Z.of_nat (length (snd (fst (validate_action self it.1 it.2)))))
            system_state).
Proof.
  destruct (check_system_health_report self system_state) as (_ & Hc & Hw).
  cbn zeta in *. rewrite Hc, Hw, Zsum_map_add. f_equal.
  apply map_ext. intros [component state].
  unfold critical_share, warning_share. cbn [fst snd].
  destruct (accepts self component state) eqn:E; [|lia].
  apply accepts_no_violation in E. now rewrite violations_of_action, E.
Qed.

(** The tally of [check_system_health] against the block records that
    [validate_action] writes for the same component and state. *)
Lemma critical_tally_ge_blocks (self : GuardRail) (component : string)
    (state : gmap string Q) :
  (Z.of_nat (length (omap (block_of component state) (registered self component)))
   <= critical_tally self component state)%Z.
Proof.
  unfold critical_tally. fold (registered self component).
  apply inj_le.
  induction (registered self component) as [|c cs IH]; [simpl; lia|].
  rewrite omap_cons_eq, filter_cons. unfold block_of at 1.
  destruct (state !! _map_parameter (type c)) as [v|] eqn:E; cbn [default from_option id].
  - rewrite andb_comm.
    destruct (critical c && negb (fst (validate c v))) eqn:B.
    + rewrite decide_True by reflexivity. simpl. lia.
    + rewrite decide_False by discriminate. lia.
  - case_decide; simpl; lia.
Qed.

Lemma critical_tally_eq_blocks (self : GuardRail) (component : string)
    (state : gmap string Q) :
  (forall c, c ∈ registered self component -> critical c = true ->
             is_Some (state !! _map_parameter (type c))) ->
  critical_tally self component state =
  Z.of_nat (length (omap (block_of component state) (registered self component))).
Proof.
  unfold critical_tally. fold (registered self component).
  intros H. f_equal.
  induction (registered self component) as [|c cs IH]; [reflexivity|].
  rewrite omap_cons_eq, filter_cons. unfold block_of at 1.
  assert (IH' : length (filter
             (fun c => critical c &&
                negb (fst (validate c (default 0 (state !! _map_parameter (type c)))))
                = true) cs)
           = length (omap (block_of component state) cs)).
  { apply IH. intros c' Hc'. apply H. now apply list_elem_of_further. }
  destruct (state !! _map_parameter (type c)) as [v|] eqn:E; cbn [default from_option id].
  - rewrite (andb_comm (negb _)).
    destruct (critical c && negb (fst (validate c v))) eqn:B.
    + rewrite decide_True by reflexivity. simpl. now rewrite IH'.
    + rewrite decide_False by discriminate. exact IH'.
  - destruct (critical c) eqn:Hc.
    + destruct (H c (list_elem_of_here _ _) Hc) as [v Hv]. congruence.
    + rewrite decide_False by (simpl; discriminate). exact IH'.
Qed.

Lemma block_of_cases (component : string) (parameters : gmap string Q)
    (c : Constraint) :
  (critical c = false /\ block_of component parameters c = None)
  \/ (critical c = true /\ violation_of parameters c = None
      /\ block_of component parameters c = None)
  \/ (critical c = true
      /\ exists m b, violation_of parameters c = Some m
                     /\ block_of component parameters c = Some b).
Proof.
  unfold violation_of, block_of.
  destruct (parameters !! _map_parameter (type c)) as [v|];
    destruct (critical c); auto.
  - destruct (fst (validate c v)); simpl; eauto 8.
  - left. split; [reflexivity|]. now rewrite andb_false_r.
Qed.

Lemma violations_split (component : string) (parameters : gmap string Q)
    (cs : list Constraint) :
  length (omap (violation_of parameters) cs) =
  (length (omap (block_of component parameters) cs)
   + length (omap (violation_of parameters)
               (filter (fun c => critical c = false) cs)))%nat.
Proof.
  induction cs as [|c cs IH]; [reflexivity|].
  rewrite filter_cons, !omap_cons_eq.
  destruct (block_of_cases component parameters c)
    as [[Hc Hb] | [(Hc & Hv & Hb) | (Hc & m & b & Hv & Hb)]];
    rewrite Hb.
  - rewrite decide_True by exact Hc. rewrite omap_cons_eq.
    destruct (violation_of parameters c); simpl; lia.
  - rewrite decide_False by congruence. rewrite Hv. exact IH.
  - rewrite decide_False by congruence. rewrite Hv. simpl. lia.
Qed.

Lemma warning_share_le (self : GuardRail) (it : string * gmap string Q) :
  (warning_share self it
   <= Z.of_nat (length (non_critical_violations self it.1 it.2)))%Z.
Proof.
  unfold warning_share, non_critical_violations.
  destruct (accepts self it.1 it.2); [lia|].
  rewrite violations_of_action,
    (violations_split it.1 it.2 (registered self it.1)).
  pose proof (critical_tally_ge_blocks self it.1 it.2). lia.
Qed.

Lemma fold_validate_action_count (items : list (string * gmap string Q)) :
  forall self : GuardRail,
    let self' := fold_left (fun s it => snd (validate_action s it.1 it.2)) items self in
    constraints self' = constraints self
    /\ violation_count self' =
       (violation_count self
        + Zsum (map (fun it => Z.of_nat (length
                       (omap (block_of it.1 it.2) (registered self it.1)))) items))%Z.
Proof.
  induction items as [|[component state] rest IH]; intros self; simpl.
  - split; [reflexivity | lia].
  - destruct (IH (snd (validate_action self component state))) as [Hc Hv].
    cbn zeta in *. rewrite Hc, Hv.
    rewrite validate_action_spec. cbn [fst snd constraints violation_count].
    split; [reflexivity|].
    rewrite <- Z.add_assoc. do 2 f_equal.
Qed.

(** X8: A health check never reports fewer critical violations than the number
    of block records it writes, and never more warnings than there are
    violated non-critical constraints: reading an absent parameter as [0] can
    only move the two counters in those directions. *)
Lemma check_system_health_counter_bounds (self : GuardRail)
    (system_state : list (string * gmap string Q)) :
  let r := fst (check_system_health self system_state) in
  let self' := snd (check_system_health self system_state) in
  (violation_count self' - violation_count self <= critical_violations r)%Z
  /\ (warnings r <=
      Zsum (map (fun it => Z.of_nat (length (non_critical_violations self it.1 it.2)))
                system_state))%Z.
Proof.
  destruct (check_system_health_report self system_state) as (_ & Hc & Hw).
  cbn zeta in *. rewrite Hc, Hw. unfold check_system_health.
  rewrite health_loop_state.
  destruct (fold_validate_action_count system_state self) as [_ Hv].
  cbn zeta in Hv. rewrite Hv. split.
  - assert (Hle : (Zsum (map (fun it => Z.of_nat (length
                       (omap (block_of it.1 it.2) (registered self it.1)))) system_state)
                   <= Zsum (map (critical_share self) system_state))%Z).
    { apply Zsum_map_le. intros [component state]. unfold critical_share.
      cbn [fst snd]. destruct (accepts self component state) eqn:E.
      - apply accepts_no_violation in E.
        destruct (blocks_le_violations component state (registered self component))
          as [Hb _].
        rewrite E in Hb. simpl in Hb. lia.
      - apply critical_tally_ge_blocks. }
    lia.
  - apply Zsum_map_le. apply warning_share_le.
Qed.


(** X9: When every critical constraint of every component finds its parameter in
    the state, nothing is read as a default: [critical_violations] is the
    number of block records the check writes and [warnings] is the number of
    violated non-critical constraints. *)
Lemma check_system_health_counters_exact (self : GuardRail)
    (system_state : list (string * gmap string Q)) :
  (forall component state c,
      (component, state) ∈ system_state ->
      c ∈ registered self component -> critical c = true ->
      is_Some (state !! _map_parameter (type c))) ->
  let r := fst (check_system_health self system_state) in
  let self' := snd (check_system_health self system_state) in
  critical_violations r = (violation_count self' - violation_count self)%Z
  /\ warnings r =
     Zsum (map (fun it => Z.of_nat (length (non_critical_violations self it.1 it.2)))
               system_state).
Proof.
  intros Hpresent.
  destruct (check_system_health_report self system_state) as (_ & Hc & Hw).
  cbn zeta in *. rewrite Hc, Hw. unfold check_system_health.
  rewrite health_loop_state.
  destruct (fold_validate_action_count system_state self) as [_ Hv].
  cbn zeta in Hv. rewrite Hv.
  assert (Hshare : forall it, it ∈ system_state ->
            critical_share self it =
              Z.of_nat (length (omap (block_of it.1 it.2) (registered self it.1)))
            /\ warning_share self it =
              Z.of_nat (length (non_critical_violations self it.1 it.2))).
  { intros [component state] Hin. unfold critical_share, warning_share,
      non_critical_violations. cbn [fst snd].
    pose proof (violations_split component state (registered self component)) as Hs.
    destruct (accepts self component state) eqn:E.
    - apply accepts_no_violation in E. rewrite E in Hs. simpl in Hs.
      split; f_equal; lia.
    - rewrite violations_of_action, Hs.
      rewrite (critical_tally_eq_blocks self component state)
        by (intros c; apply (Hpresent component state c Hin)).
      split; lia. }
  split.
  - rewrite (Zsum_map_ext_in (critical_share self) _ system_state
               (fun it Hin => proj1 (Hshare it Hin))). lia.
  - apply Zsum_map_ext_in. intros it Hin. apply (Hshare it Hin).
Qed.

Lemma check_system_health_counters_exact_witness :
  let system_state : list (string * gmap string Q) :=
    [("grid", <[ "voltage" := 430 ]> {[ "frequency" := 50 ]});
     ("solar", {[ "temperature" := 90 ]})] in
  let r := fst (check_system_health guard_rail.__init__ system_state) in
  let self' := snd (check_system_health guard_rail.__init__ system_state) in
  critical_violations r = (violation_count self' - violation_count guard_rail.__init__)%Z
  /\ warnings r =
     Zsum (map (fun it => Z.of_nat (length
                  (non_critical_violations guard_rail.__init__ it.1 it.2)))
               system_state).
Proof.
  apply (check_system_health_counters_exact guard_rail.__init__
           [("grid", <[ "voltage" := 430 ]> {[ "frequency" := 50 ]});
            ("solar", {[ "temperature" := 90 ]})]).
  intros component state c Hin Hc Hcrit.
  apply elem_of_cons in Hin as [Hin | Hin].
  - inversion Hin; subst. vm_compute in Hc.
    apply elem_of_cons in Hc as [-> | Hc]; [vm_compute; eauto|].
    apply list_elem_of_singleton in Hc as ->. vm_compute; eauto.
  - apply list_elem_of_singleton in Hin. inversion Hin; subst. vm_compute in Hc.
    apply list_elem_of_singleton in Hc as ->. discriminate Hcrit.
Defined.

(** X10: A healthy report has both counters at zero and the check has left the
    guard rail untouched. *)
Lemma check_system_health_healthy_is_silent (self : GuardRail)
    (system_state : list (string * gmap string Q)) :
  healthy (fst (check_system_health self system_state)) = true ->
  critical_violations (fst (check_system_health self system_state)) = 0%Z
  /\ warnings (fst (check_system_health self system_state)) = 0%Z
  /\ snd (check_system_health self system_state) = self.
Proof.
  destruct (check_system_health_report self system_state) as (Hh & Hc & Hw).
  cbn zeta in *. intros H. apply Hh in H. rewrite Hc, Hw.
  unfold check_system_health. rewrite health_loop_state.
  clear Hh Hc Hw.
  induction H as [|[component state] rest Hacc _ IH]; [auto|].
  cbn [fst snd] in Hacc. destruct IH as (IHc & IHw & IHs).
  cbn [map fold_left]. unfold Zsum in *. cbn [fold_right fst snd].
  rewrite IHc, IHw.
  unfold critical_share, warning_share, accepts. cbn [fst snd].
  rewrite (accepted_action_result self component state)
    by (apply accepts_no_violation; exact Hacc).
  cbn [fst snd]. auto.
Qed.

Lemma check_system_health_healthy_is_silent_witness :
  let system_state : list (string * gmap string Q) :=
    [("battery", <[ "soc" := 75 ]> {[ "current" := 30 ]});
     ("grid", <[ "voltage" := 400 ]> {[ "frequency" := 50 ]});
     ("solar", {[ "temperature" := 45 ]})] in
  critical_violations (fst (check_system_health guard_rail.__init__ system_state)) = 0%Z
  /\ warnings (fst (check_system_health guard_rail.__init__ system_state)) = 0%Z
  /\ snd (check_system_health guard_rail.__init__ system_state) = guard_rail.__init__.
Proof.
  apply (check_system_health_healthy_is_silent guard_rail.__init__
           [("battery", <[ "soc" := 75 ]> {[ "current" := 30 ]});
            ("grid", <[ "voltage" := 400 ]> {[ "frequency" := 50 ]});
            ("solar", {[ "temperature" := 45 ]})]).
  vm_compute. reflexivity.
Defined.


(** *** The default envelope and the statistics *)



(** X12: Registering a constraint adds one to [total_constraints], whatever its
    name, and adds one to [components_monitored] exactly when the component
    had no constraint list yet. *)
Lemma add_constraint_statistics (self : GuardRail) (component : string)
    (c : Constraint) :
  total_constraints (get_statistics (add_constraint self component c)) =
    (total_constraints (get_statistics self) + 1)%Z
  /\ components_monitored (get_statistics (add_constraint self component c)) =
     (components_monitored (get_statistics self)
      + match constraints self !! component with Some _ => 0 | None => 1 end)%Z.
Proof.
  unfold get_statistics, add_constraint. cbn.
  set (f := fun (_ : string) (cs : list Constraint) (acc : Z) =>
              (acc + Z.of_nat (length cs))%Z).
  assert (Hcomm : forall (j1 j2 : string) (z1 z2 : list Constraint) (y : Z),
             f j1 z1 (f j2 z2 y) = f j2 z2 (f j1 z1 y))
    by (intros; unfold f; lia).
  destruct (constraints self !! component) as [cs|] eqn:E.
  - split.
    + rewrite <- insert_delete_eq.
      rewrite (map_fold_insert_L f);
        [|intros; apply Hcomm | apply lookup_delete_eq].
      rewrite (map_fold_delete_L f 0%Z component cs (constraints self));
        [|intros; apply Hcomm | exact E].
      unfold f. rewrite length_app. simpl. lia.
    + rewrite map_size_insert_Some by eauto. lia.
  - split.
    + rewrite (map_fold_insert_L f); [|intros; apply Hcomm | exact E].
      unfold f. simpl. lia.
    + rewrite map_size_insert_None by exact E. lia.
Qed.

(** X13: [recent_blocks] are the last entries of the history, all of them while
    there are at most ten and the last ten afterwards. *)
Lemma recent_blocks_last_ten (self : GuardRail) :
  recent_blocks (get_statistics self) `suffix_of` blocked_actions self
  /\ length (recent_blocks (get_statistics self)) =
     Nat.min 10 (length (blocked_actions self)).
Proof.
  unfold get_statistics. cbn [recent_blocks]. split.
  - apply suffix_drop.
  - rewrite length_drop. lia.
Qed.


(** * Properties of the solver bridge *)

Import solver_bridge.

(** Splits the goal on the outcome of the first fallible step. *)
Ltac step_outcome :=
  match goal with
  | |- context [mbind _ ?m] =>
      let E := fresh "E" in destruct m eqn:E; cbn [mbind outcome_bind mret outcome_ret]
  | H : context [mbind _ ?m] |- _ =>
      let E := fresh "E" in
      destruct m eqn:E; cbn [mbind outcome_bind mret outcome_ret] in H
  end.

(** Walks through the branches of [hour_body] in a hypothesis that says it
    returned. *)
Ltac hour_body_cases H :=
  unfold hour_body in H;
  repeat first
    [ step_outcome; [|discriminate H]
    | match type of H with
      | context [if ?b then _ else _] =>
          let C := fresh "C" in destruct b eqn:C
      end ];
  inversion H; subst; clear H.

(** C2: with an empty solar forecast and the default horizon of 24 hours the
    call raises [IndexError]: [_pad_forecast] reads [forecast[-1]] before the
    [try] block is entered, so no fallback result is returned. *)
Theorem optimize_energy_schedule_empty_forecast_raises
    (self : SolverBridge) (time : nat -> Q) (load_forecast : list Q)
    (battery_capacity initial_soc : Q) (grid_tariff : option (list Q)) :
  optimize_energy_schedule self time [] load_forecast battery_capacity
    initial_soc grid_tariff 24 = Raises IndexError.
Proof. reflexivity. Qed.

(** Once both forecasts are padded the call always returns: the heuristic's
    result with [success = true], or, when the heuristic raises, the fallback
    with [success = false], a zero battery schedule, the padded load as grid
    schedule and a zero objective. *)
Lemma optimize_energy_schedule_after_padding
    (self : SolverBridge) (time : nat -> Q) (solar_forecast load_forecast : list Q)
    (battery_capacity initial_soc : Q) (grid_tariff : option (list Q))
    (horizon_hours : Z) (solar load : list Q) :
  _pad_forecast solar_forecast horizon_hours = Returns solar ->
  _pad_forecast load_forecast horizon_hours = Returns load ->
  exists (r : OptimizationResult) (self' : SolverBridge),
    optimize_energy_schedule self time solar_forecast load_forecast
      battery_capacity initial_soc grid_tariff horizon_hours = Returns (r, self')
    /\ let tariff := default (_generate_default_tariff horizon_hours) grid_tariff in
       match _solve_simple_heuristic solar load battery_capacity tariff
               initial_soc horizon_hours with
       | Returns r0 =>
           success r = true
           /\ battery_schedule r = battery_schedule r0
           /\ grid_schedule r = grid_schedule r0
           /\ objective_value r = objective_value r0
           /\ cost_savings_pct r = cost_savings_pct r0
       | Raises _ =>
           success r = false
           /\ battery_schedule r = py_repeat 0 horizon_hours
           /\ grid_schedule r = load
           /\ objective_value r = 0
       end.
Proof.
  intros Hs Hl. unfold optimize_energy_schedule. rewrite Hs. cbn [mbind outcome_bind].
  rewrite Hl. cbn [mbind outcome_bind mret outcome_ret].
  replace (match grid_tariff with
           | Some t => t
           | None => _generate_default_tariff horizon_hours
           end)
    with (default (_generate_default_tariff horizon_hours) grid_tariff)
    by now destruct grid_tariff.
  cbn zeta.
  destruct (_solve_simple_heuristic solar load battery_capacity
              (default (_generate_default_tariff horizon_hours) grid_tariff)
              initial_soc horizon_hours) as [r0|e] eqn:E;
    cbn [try_except mbind outcome_bind mret outcome_ret].
  - do 2 eexists. split; [reflexivity|].
    unfold _solve_simple_heuristic in E. step_outcome; [|discriminate].
    inversion E; subst. cbn. auto.
  - do 2 eexists. split; [reflexivity|]. cbn. auto.
Qed.

(** C9: two calls with the same forecasts, capacity, initial SOC, tariff and
    horizon, made on bridges in any two states and at any two times, both
    raise the same exception or return results with the same
    [battery_schedule], [grid_schedule] and [objective_value]. *)
Theorem optimize_energy_schedule_deterministic
    (self1 self2 : SolverBridge) (time1 time2 : nat -> Q)
    (solar_forecast load_forecast : list Q) (battery_capacity initial_soc : Q)
    (grid_tariff : option (list Q)) (horizon_hours : Z) :
  schedules_and_objective
    (optimize_energy_schedule self1 time1 solar_forecast load_forecast
       battery_capacity initial_soc grid_tariff horizon_hours) =
  schedules_and_objective
    (optimize_energy_schedule self2 time2 solar_forecast load_forecast
       battery_capacity initial_soc grid_tariff horizon_hours).
Proof.
  unfold optimize_energy_schedule.
  destruct (_pad_forecast solar_forecast horizon_hours) as [solar|e];
    [|reflexivity].
  destruct (_pad_forecast load_forecast horizon_hours) as [load|e];
    [|reflexivity].
  cbn [mbind outcome_bind mret outcome_ret].
  destruct (_solve_simple_heuristic solar load battery_capacity _ initial_soc
              horizon_hours) as [r|e]; reflexivity.
Qed.

(** *** Padding and schedule lengths *)

Lemma padded_length (forecast : list Q) (h : Z) :
  (h = 0)%Z \/ forecast <> [] ->
  length (padded forecast h) = Z.to_nat h.
Proof.
  intros H. unfold padded. rewrite length_app, length_take, length_replicate.
  destruct H as [-> | H]; [simpl; lia|].
  destruct forecast; [congruence|]. simpl. lia.
Qed.

Lemma _pad_forecast_padded (forecast : list Q) (h : Z) :
  (0 <= h)%Z ->
  (h = 0)%Z \/ forecast <> [] ->
  _pad_forecast forecast h = Returns (padded forecast h).
Proof.
  intros Hh Hne. unfold _pad_forecast, padded.
  destruct (h <=? Z.of_nat (length forecast))%Z eqn:E.
  - apply Z.leb_le in E. unfold py_slice_to.
    replace (0 <=? h)%Z with true by (symmetry; now apply Z.leb_le).
    replace (Z.to_nat h - length forecast)%nat with 0%nat by lia.
    simpl. now rewrite app_nil_r.
  - apply Z.leb_gt in E.
    destruct Hne as [-> | Hne]; [lia|].
    unfold py_last. destruct (last forecast) as [x|] eqn:El.
    + cbn [mbind outcome_bind mret outcome_ret]. unfold py_repeat. simpl.
      rewrite take_ge by lia. do 3 f_equal. lia.
    + apply last_None in El. congruence.
Qed.

Lemma _pad_forecast_idempotent (forecast : list Q) (h : Z) :
  (0 <= h)%Z ->
  (h = 0)%Z \/ forecast <> [] ->
  _pad_forecast (padded forecast h) h = Returns (padded forecast h).
Proof.
  intros Hh Hne. pose proof (padded_length forecast h Hne) as Hlen.
  unfold _pad_forecast. rewrite Hlen.
  replace (h <=? Z.of_nat (Z.to_nat h))%Z with true
    by (symmetry; apply Z.leb_le; lia).
  unfold py_slice_to.
  replace (0 <=? h)%Z with true by (symmetry; now apply Z.leb_le).
  now rewrite take_ge by lia.
Qed.

Lemma hour_body_appends (solar load : list Q) (battery_capacity : Q)
    (tariff : list Q) (v v' : locals) (hour : nat) :
  hour_body solar load battery_capacity tariff v hour = Returns v' ->
  length (battery_schedule_ v') = S (length (battery_schedule_ v))
  /\ length (grid_schedule_ v') = S (length (grid_schedule_ v)).
Proof.
  intros H. hour_body_cases H; cbn; rewrite !length_app; simpl; lia.
Qed.

Lemma hour_loop_lengths (solar load : list Q) (battery_capacity : Q)
    (tariff : list Q) (hours : list nat) :
  forall v v' : locals,
    hour_loop solar load battery_capacity tariff hours v = Returns v' ->
    length (battery_schedule_ v') = (length (battery_schedule_ v) + length hours)%nat
    /\ length (grid_schedule_ v') = (length (grid_schedule_ v) + length hours)%nat.
Proof.
  induction hours as [|hour rest IH]; intros v v' H; simpl in H.
  - inversion H; subst. simpl. lia.
  - step_outcome; [|discriminate].
    apply hour_body_appends in E. apply IH in H. simpl. lia.
Qed.

(** With an empty solar forecast and a horizon of 24 no schedule is returned
    at all, and with a horizon of -1 the returned schedules are empty. *)
Lemma optimize_energy_schedule_length_fails :
  let self := solver_bridge.__init__ SIMPLE in
  optimize_energy_schedule self (fun _ => 0) [] [1] 500 50 None 24
    = Raises IndexError
  /\ exists (r : OptimizationResult) (self' : SolverBridge),
       optimize_energy_schedule self (fun _ => 0) [1] [1] 500 50 None (-1)
         = Returns (r, self')
       /\ Z.of_nat (length (battery_schedule r)) <> (-1)%Z
       /\ Z.of_nat (length (grid_schedule r)) <> (-1)%Z.
Proof.
  split; [reflexivity|].
  do 2 eexists. split; [vm_compute; reflexivity|].
  split; discriminate.
Qed.

(** C7 (amended): for a horizon [h >= 0] and forecasts that are not empty
    (unless [h = 0]), each forecast is cut to its first [h] entries or
    extended to [h] entries by copies of its last one before the loop runs
    (the call answers as it does on the padded forecasts), and the call
    returns a result, from the heuristic or from the fallback, whose
    [battery_schedule] and [grid_schedule] both have length exactly [h]. *)
Theorem optimize_energy_schedule_lengths
    (self : SolverBridge) (time : nat -> Q) (solar_forecast load_forecast : list Q)
    (battery_capacity initial_soc : Q) (grid_tariff : option (list Q))
    (h : Z) :
  (0 <= h)%Z ->
  (h = 0)%Z \/ solar_forecast <> [] ->
  (h = 0)%Z \/ load_forecast <> [] ->
  _pad_forecast solar_forecast h = Returns (padded solar_forecast h)
  /\ _pad_forecast load_forecast h = Returns (padded load_forecast h)
  /\ optimize_energy_schedule self time solar_forecast load_forecast
       battery_capacity initial_soc grid_tariff h =
     optimize_energy_schedule self time (padded solar_forecast h)
       (padded load_forecast h) battery_capacity initial_soc grid_tariff h
  /\ exists (r : OptimizationResult) (self' : SolverBridge),
       optimize_energy_schedule self time solar_forecast load_forecast
         battery_capacity initial_soc grid_tariff h = Returns (r, self')
       /\ Z.of_nat (length (battery_schedule r)) = h
       /\ Z.of_nat (length (grid_schedule r)) = h.
Proof.
  intros Hh Hs Hl.
  pose proof (_pad_forecast_padded solar_forecast h Hh Hs) as Ps.
  pose proof (_pad_forecast_padded load_forecast h Hh Hl) as Pl.
  split; [exact Ps|]. split; [exact Pl|]. split.
  - unfold optimize_energy_schedule.
    rewrite Ps, Pl, (_pad_forecast_idempotent _ _ Hh Hs),
      (_pad_forecast_idempotent _ _ Hh Hl).
    reflexivity.
  - destruct (optimize_energy_schedule_after_padding self time solar_forecast
                load_forecast battery_capacity initial_soc grid_tariff h _ _ Ps Pl)
      as (r & self' & Hr & Hcase).
    exists r, self'. split; [exact Hr|].
    cbn zeta in Hcase.
    destruct (_solve_simple_heuristic (padded solar_forecast h)
                (padded load_forecast h) battery_capacity
                (default (_generate_default_tariff h) grid_tariff) initial_soc h)
      as [r0|e] eqn:E.
    + destruct Hcase as (_ & Hb & Hg & _). rewrite Hb, Hg.
      unfold _solve_simple_heuristic in E. step_outcome; [|discriminate].
      inversion E; subst. cbn.
      apply hour_loop_lengths in E0. destruct E0 as [-> ->].
      unfold py_range. rewrite length_seq. simpl. lia.
    + destruct Hcase as (_ & Hb & Hg & _). rewrite Hb, Hg.
      unfold py_repeat. rewrite length_replicate, (padded_length _ _ Hl). lia.
Qed.

Lemma optimize_energy_schedule_lengths_witness :
  exists (r : OptimizationResult) (self' : SolverBridge),
    optimize_energy_schedule (solver_bridge.__init__ SIMPLE) (fun _ => 0)
      [5] [1; 2; 3] 10 50 None 2 = Returns (r, self')
    /\ Z.of_nat (length (battery_schedule r)) = 2%Z
    /\ Z.of_nat (length (grid_schedule r)) = 2%Z.
Proof.
  apply (optimize_energy_schedule_lengths (solver_bridge.__init__ SIMPLE)
           (fun _ => 0) [5] [1; 2; 3] 10 50 None 2).
  - lia.
  - right. discriminate.
  - right. discriminate.
Defined.

(** *** State of charge *)







(** When the loop runs to its end the trace has one entry per hour and ends
    with the locals the loop returns. *)
Lemma hour_trace_complete (solar load : list Q) (battery_capacity : Q)
    (tariff : list Q) (hours : list nat) :
  forall v v' : locals,
    hour_loop solar load battery_capacity tariff hours v = Returns v' ->
    length (hour_trace solar load battery_capacity tariff hours v) = length hours
    /\ last (v :: hour_trace solar load battery_capacity tariff hours v) = Some v'.
Proof.
  induction hours as [|hour rest IH]; intros v v' H; simpl in H.
  - inversion H; subst. split; reflexivity.
  - step_outcome; [|discriminate]. simpl. rewrite E.
    destruct (IH _ _ H) as [Hlen Hlast]. split; [simpl; lia|].
    exact Hlast.
Qed.



(** The trace of that run: one hour of charging, then one of discharging. *)
Example soc_trace_two_hours :
  map soc (hour_trace [5; 1] [1; 2] 10 [1; 9] (py_range 2) (initial_locals 50))
  = [50 + 4 / 10 * 100 * (95 # 100); 50 + 4 / 10 * 100 * (95 # 100) - 1 / 10 * 100 / (95 # 100)].
Proof. reflexivity. Qed.

(** *** Cost and savings *)

Lemma py_max_deficit (solar_h load_h : Q) :
  py_max 0 (- (solar_h - load_h)) ==
  if Qltb 0 (load_h - solar_h) then load_h - solar_h else 0.
Proof.
  unfold py_max. destruct (Qltb 0 (load_h - solar_h)) eqn:E.
  - apply Qltb_lt in E. rewrite Q.max_r; lra.
  - apply Qltb_ge in E. rewrite Q.max_l; lra.
Qed.

Lemma py_index_lookup (l : list Q) (i : nat) (x : Q) :
  py_index l i = Returns x -> l !! i = Some x.
Proof.
  unfold py_index. destruct (l !! i); [|discriminate]. now inversion 1.
Qed.

Lemma hour_body_baseline (solar load : list Q) (battery_capacity : Q)
    (tariff : list Q) (v v' : locals) (hour : nat) :
  hour_body solar load battery_capacity tariff v hour = Returns v' ->
  baseline_cost v' == baseline_cost v + deficit_only_bill solar load tariff [hour].
Proof.
  intros H. unfold deficit_only_bill. cbn [map fold_right].
  hour_body_cases H; cbn [baseline_cost];
    rewrite (py_index_lookup _ _ _ E), (py_index_lookup _ _ _ E0),
      (py_index_lookup _ _ _ E1); cbn [default from_option id];
    rewrite py_max_deficit; ring.
Qed.

Lemma hour_loop_baseline (solar load : list Q) (battery_capacity : Q)
    (tariff : list Q) (hours : list nat) :
  forall v v' : locals,
    hour_loop solar load battery_capacity tariff hours v = Returns v' ->
    baseline_cost v' == baseline_cost v + deficit_only_bill solar load tariff hours.
Proof.
  induction hours as [|hour rest IH]; intros v v' H; simpl in H.
  - inversion H; subst. unfold deficit_only_bill. simpl. ring.
  - step_outcome; [|discriminate].
    rewrite (IH _ _ H), (hour_body_baseline _ _ _ _ _ _ _ E).
    unfold deficit_only_bill. cbn [map fold_right]. ring.
Qed.

(** C8: when the heuristic returns, its [cost_savings_pct] is
    [(baseline_cost - total_cost) / baseline_cost * 100] if the baseline is
    strictly positive and [0] if the baseline is zero, where [total_cost] is
    the returned objective and [baseline_cost] is the bill of the deficit
    hours with nothing taken from the battery. *)
Theorem cost_savings_pct_formula (solar load : list Q) (battery_capacity : Q)
    (tariff : list Q) (initial_soc : Q) (horizon : Z) (r : OptimizationResult) :
  _solve_simple_heuristic solar load battery_capacity tariff initial_soc horizon
    = Returns r ->
  exists v : locals,
    hour_loop solar load battery_capacity tariff (py_range horizon)
      (initial_locals initial_soc) = Returns v
    /\ objective_value r = total_cost v
    /\ baseline_cost v == deficit_only_bill solar load tariff (py_range horizon)
    /\ (0 < baseline_cost v ->
        cost_savings_pct r =
        (baseline_cost v - total_cost v) / baseline_cost v * 100)
    /\ (baseline_cost v == 0 -> cost_savings_pct r = 0).
Proof.
  unfold _solve_simple_heuristic. intros H.
  step_outcome; [|discriminate]. inversion H; subst; clear H.
  exists a. split; [reflexivity|]. split; [reflexivity|]. split.
  - rewrite (hour_loop_baseline _ _ _ _ _ _ _ E). cbn [initial_locals baseline_cost].
    ring.
  - cbn [cost_savings_pct]. unfold savings, Qgtb. split.
    + intros Hpos. apply Qltb_lt in Hpos. now rewrite Hpos.
    + intros Hzero.
      destruct (Qltb 0 (baseline_cost a)) eqn:C; [|reflexivity].
      apply Qltb_lt in C. rewrite Hzero in C. exfalso. exact (Qlt_irrefl _ C).
Qed.

Lemma cost_savings_pct_formula_witness :
  exists r : OptimizationResult,
    _solve_simple_heuristic [5; 1] [1; 2] 10 [1; 9] 50 2 = Returns r
    /\ exists v : locals,
         hour_loop [5; 1] [1; 2] 10 [1; 9] (py_range 2) (initial_locals 50) = Returns v
         /\ objective_value r = total_cost v
         /\ baseline_cost v == deficit_only_bill [5; 1] [1; 2] [1; 9] (py_range 2)
         /\ (0 < baseline_cost v ->
             cost_savings_pct r =
             (baseline_cost v - total_cost v) / baseline_cost v * 100)
         /\ (baseline_cost v == 0 -> cost_savings_pct r = 0).
Proof.
  eexists. split; [vm_compute; reflexivity|].
  apply (cost_savings_pct_formula [5; 1] [1; 2] 10 [1; 9] 50 2).
  vm_compute. reflexivity.
Defined.

(** * Further properties of the solver bridge *)

(** *** [_pad_forecast] *)

Lemma _pad_forecast_outcome (forecast : list Q) (target_length : Z) :
  (forecast = [] /\ (0 < target_length)%Z ->
   _pad_forecast forecast target_length = Raises IndexError)
  /\ (forecast <> [] \/ (target_length <= 0)%Z ->
      exists l, _pad_forecast forecast target_length = Returns l).
Proof.
  unfold _pad_forecast, py_last. split.
  - intros [-> H]. cbn [length last].
    destruct (target_length <=? Z.of_nat 0)%Z eqn:E; [|reflexivity].
    apply Z.leb_le in E. simpl in E. lia.
  - intros H.
    destruct (target_length <=? Z.of_nat (length forecast))%Z eqn:E; [eauto|].
    apply Z.leb_gt in E.
    destruct (last forecast) as [x|] eqn:El;
      cbn [mbind outcome_bind mret outcome_ret]; [eauto|].
    apply last_None in El. subst forecast. simpl in E.
    destruct H as [H | H]; [contradiction | lia].
Qed.

(** X14: Padding raises exactly when there is nothing to repeat: the forecast is
    empty and the target length is positive.  The exception is [IndexError]. *)
Lemma _pad_forecast_raises_iff (forecast : list Q) (target_length : Z) :
  (_pad_forecast forecast target_length = Raises IndexError
   <-> forecast = [] /\ (0 < target_length)%Z)
  /\ ((exists l, _pad_forecast forecast target_length = Returns l)
      <-> forecast <> [] \/ (target_length <= 0)%Z).
Proof.
  unfold _pad_forecast, py_last.
  destruct (target_length <=? Z.of_nat (length forecast))%Z eqn:E.
  - apply Z.leb_le in E. cbn [mret outcome_ret]. split; split.
    + discriminate.
    + intros [-> H]. simpl in E. lia.
    + intros _. destruct forecast; [right; simpl in E; lia | left; discriminate].
    + intros _. eauto.
  - apply Z.leb_gt in E. destruct (last forecast) as [x|] eqn:El;
      cbn [mbind outcome_bind mret outcome_ret].
    + assert (forecast <> []) by (intros ->; discriminate El).
      split; split; try discriminate; eauto. intros [? _]. contradiction.
    + apply last_None in El. subst forecast. simpl in E.
      split; split; auto.
      * intros [l Hl]. discriminate Hl.
      * intros [H | H]; [contradiction | lia].
Qed.

(** X15: What the padded forecast holds: it has exactly [target_length] entries,
    entry [i] is the forecast's own entry [i] while there is one and the
    forecast's last entry from there on. *)
Lemma _pad_forecast_entries (forecast : list Q) (target_length : Z) :
  (0 <= target_length)%Z ->
  (target_length = 0)%Z \/ forecast <> [] ->
  exists l : list Q,
    _pad_forecast forecast target_length = Returns l
    /\ Z.of_nat (length l) = target_length
    /\ forall i : nat,
         (i < Z.to_nat target_length)%nat ->
         l !! i = match forecast !! i with
                  | Some x => Some x
                  | None => last forecast
                  end.
Proof.
  intros Hh Hne. exists (padded forecast target_length).
  split; [now apply _pad_forecast_padded|].
  split; [rewrite padded_length by exact Hne; lia|].
  intros i Hi. unfold padded.
  destruct (forecast !! i) as [x|] eqn:E.
  - rewrite lookup_app_l
      by (rewrite length_take; apply lookup_lt_Some in E; lia).
    now rewrite lookup_take_lt by lia.
  - apply lookup_ge_None in E.
    rewrite lookup_app_r by (rewrite length_take; lia).
    rewrite length_take.
    destruct Hne as [-> | Hne]; [simpl in Hi; lia|].
    destruct (last forecast) as [x|] eqn:El;
      [|apply last_None in El; contradiction].
    cbn [default from_option id].
    apply lookup_replicate_2. lia.
Qed.

Lemma _pad_forecast_entries_witness :
  exists l : list Q,
    _pad_forecast [7; 8] 4 = Returns l
    /\ Z.of_nat (length l) = 4%Z
    /\ forall i : nat,
         (i < Z.to_nat 4)%nat ->
         l !! i = match [7; 8] !! i with
                  | Some x => Some x
                  | None => last [7; 8]
                  end.
Proof.
  apply (_pad_forecast_entries [7; 8] 4).
  - lia.
  - right. discriminate.
Defined.

(** X16: A negative target length does not raise: the forecast comes back without
    its last [-target_length] entries (empty when it has no more than that). *)
Lemma _pad_forecast_negative (forecast : list Q) (target_length : Z) :
  (target_length < 0)%Z ->
  _pad_forecast forecast target_length =
  Returns (take (length forecast - Z.to_nat (- target_length)) forecast).
Proof.
  intros Hneg. unfold _pad_forecast, py_slice_to.
  replace (target_length <=? Z.of_nat (length forecast))%Z with true
    by (symmetry; apply Z.leb_le; lia).
  replace (0 <=? target_length)%Z with false
    by (symmetry; apply Z.leb_gt; lia).
  cbn [mret outcome_ret]. do 2 f_equal. lia.
Qed.

Lemma _pad_forecast_negative_witness :
  _pad_forecast [1; 2; 3] (-1) =
  Returns (take (length [1; 2; 3] - Z.to_nat (- (-1))) [1; 2; 3]).
Proof. apply (_pad_forecast_negative [1; 2; 3] (-1)). lia. Defined.

(** *** [_generate_default_tariff] *)

Lemma _generate_default_tariff_lookup (hours : Z) (hour : nat) :
  (hour < Z.to_nat hours)%nat ->
  _generate_default_tariff hours !! hour =
  Some (band_price (Z.of_nat hour mod 24)).
Proof.
  intros H. unfold _generate_default_tariff, py_range.
  rewrite list_lookup_fmap, lookup_seq_lt by exact H. reflexivity.
Qed.

Lemma _generate_default_tariff_length (hours : Z) :
  length (_generate_default_tariff hours) = Z.to_nat hours.
Proof.
  unfold _generate_default_tariff, py_range. now rewrite length_map, length_seq.
Qed.

Lemma band_price_values (hour_of_day : Z) :
  band_price hour_of_day = 45 # 10 \/ band_price hour_of_day = 65 # 10
  \/ band_price hour_of_day = 85 # 10.
Proof.
  unfold band_price.
  destruct ((6 <=? hour_of_day) && (hour_of_day <? 9)
            || (18 <=? hour_of_day) && (hour_of_day <? 22))%Z; [auto|].
  destruct ((9 <=? hour_of_day) && (hour_of_day <? 18))%Z; auto.
Qed.

(** X17: The default tariff has one price per hour of the horizon (none for a
    horizon that is not positive), every price is 4.5, 6.5 or 8.5, the
    prices repeat every 24 hours, and a longer horizon only adds hours at the
    end. *)
Lemma _generate_default_tariff_shape (hours : Z) :
  length (_generate_default_tariff hours) = Z.to_nat hours
  /\ Forall (fun price => price = 45 # 10 \/ price = 65 # 10 \/ price = 85 # 10)
            (_generate_default_tariff hours)
  /\ (forall hour : nat,
        (hour + 24 < Z.to_nat hours)%nat ->
        _generate_default_tariff hours !! (hour + 24)%nat =
        _generate_default_tariff hours !! hour)
  /\ (forall more : Z,
        (hours <= more)%Z ->
        _generate_default_tariff hours `prefix_of` _generate_default_tariff more).
Proof.
  repeat split.
  - unfold _generate_default_tariff, py_range. now rewrite length_map, length_seq.
  - apply Forall_lookup. intros hour price Hl.
    assert (Hlt : (hour < Z.to_nat hours)%nat).
    { apply lookup_lt_Some in Hl.
      unfold _generate_default_tariff, py_range in Hl.
      now rewrite length_map, length_seq in Hl. }
    rewrite _generate_default_tariff_lookup in Hl by exact Hlt.
    inversion Hl; subst. apply band_price_values.
  - intros hour H. rewrite !_generate_default_tariff_lookup by lia.
    do 2 f_equal. rewrite Nat2Z.inj_add.
    change (Z.of_nat 24) with (1 * 24)%Z. apply Z.mod_add. lia.
  - intros more Hle. unfold _generate_default_tariff, py_range.
    replace (Z.to_nat more) with (Z.to_nat hours + (Z.to_nat more - Z.to_nat hours))%nat
      by lia.
    rewrite seq_app, map_app. now apply prefix_app_r.
Qed.

(** *** When the planner raises, falls back or succeeds *)

(** X18: The only exception that leaves [optimize_energy_schedule] is the
    [IndexError] of the padding: the call raises exactly when the horizon is
    positive and one of the two forecasts is empty. *)
Lemma optimize_energy_schedule_raises_iff
    (self : SolverBridge) (time : nat -> Q) (solar_forecast load_forecast : list Q)
    (battery_capacity initial_soc : Q) (grid_tariff : option (list Q))
    (horizon_hours : Z) :
  (exists e, optimize_energy_schedule self time solar_forecast load_forecast
               battery_capacity initial_soc grid_tariff horizon_hours = Raises e)
  <-> (0 < horizon_hours)%Z /\ (solar_forecast = [] \/ load_forecast = []).
Proof.
  destruct (_pad_forecast_outcome solar_forecast horizon_hours) as [Hs1 Hs2].
  destruct (_pad_forecast_outcome load_forecast horizon_hours) as [Hl1 Hl2].
  split.
  - intros [e He]. unfold optimize_energy_schedule in He.
    destruct (_pad_forecast solar_forecast horizon_hours) as [solar|e1] eqn:Es.
    + destruct (_pad_forecast load_forecast horizon_hours) as [load|e2] eqn:El.
      * discriminate He.
      * destruct (decide (load_forecast <> [] \/ (horizon_hours <= 0)%Z)) as [H|H].
        -- apply Hl2 in H. destruct H as [l Hl]. discriminate Hl.
        -- destruct load_forecast; [|exfalso; apply H; left; discriminate].
           split; [lia | auto].
    + destruct (decide (solar_forecast <> [] \/ (horizon_hours <= 0)%Z)) as [H|H].
      * apply Hs2 in H. destruct H as [l Hl]. discriminate Hl.
      * destruct solar_forecast; [|exfalso; apply H; left; discriminate].
        split; [lia | auto].
  - intros [Hh [-> | ->]]; unfold optimize_energy_schedule.
    + rewrite Hs1 by auto. eauto.
    + destruct (_pad_forecast solar_forecast horizon_hours);
        cbn [mbind outcome_bind]; [|eauto].
      rewrite Hl1 by auto. eauto.
Qed.

Lemma hour_body_reads (solar load : list Q) (battery_capacity : Q)
    (tariff : list Q) (v v' : locals) (hour : nat) :
  hour_body solar load battery_capacity tariff v hour = Returns v' ->
  (hour < length solar)%nat /\ (hour < length load)%nat
  /\ (hour < length tariff)%nat.
Proof.
  unfold hour_body. intros H.
  do 3 (step_outcome; [|discriminate H]).
  apply py_index_lookup in E, E0, E1.
  repeat split; eapply lookup_lt_Some; eassumption.
Qed.

Lemma py_index_in_range (l : list Q) (i : nat) :
  (i < length l)%nat -> exists x, py_index l i = Returns x.
Proof.
  intros H. unfold py_index.
  destruct (lookup_lt_is_Some_2 l i H) as [x ->]. eauto.
Qed.

Lemma py_div_nonzero (a b : Q) : ~ b == 0 -> py_div a b = Returns (a / b).
Proof.
  intros Hb. unfold py_div. destruct (Qeq_bool b 0) eqn:E; [|reflexivity].
  apply Qeq_bool_iff in E. contradiction.
Qed.

Lemma hour_body_returns (solar load : list Q) (battery_capacity : Q)
    (tariff : list Q) (v : locals) (hour : nat) :
  ~ battery_capacity == 0 ->
  (hour < length solar)%nat -> (hour < length load)%nat ->
  (hour < length tariff)%nat ->
  exists v', hour_body solar load battery_capacity tariff v hour = Returns v'.
Proof.
  intros Hcap Hs Hl Ht. unfold hour_body.
  destruct (py_index_in_range solar hour Hs) as [s ->].
  destruct (py_index_in_range load hour Hl) as [l ->].
  destruct (py_index_in_range tariff hour Ht) as [t ->].
  cbn [mbind outcome_bind mret outcome_ret].
  assert (Hlen : ~ inject_Z (Z.of_nat (length tariff)) == 0).
  { unfold Qeq. simpl. lia. }
  rewrite (py_div_nonzero _ _ Hlen).
  cbn [mbind outcome_bind mret outcome_ret].
  rewrite !(py_div_nonzero _ _ Hcap).
  cbn [mbind outcome_bind mret outcome_ret].
  destruct (Qgtb (s - l) 0); [destruct (Qltb (soc v) 90); eauto|].
  destruct (Qgtb t _ && Qgtb (soc v) 20); eauto.
Qed.

Lemma hour_loop_returns_iff (solar load : list Q) (battery_capacity : Q)
    (tariff : list Q) (hours : list nat) :
  ~ battery_capacity == 0 ->
  forall v : locals,
    (exists v', hour_loop solar load battery_capacity tariff hours v = Returns v')
    <-> Forall (fun hour => (hour < length solar)%nat /\ (hour < length load)%nat
                            /\ (hour < length tariff)%nat) hours.
Proof.
  intros Hcap. induction hours as [|hour rest IH]; intros v; simpl.
  - split; [constructor | eauto].
  - split.
    + intros [v' H]. step_outcome; [|discriminate H].
      constructor; [eapply hour_body_reads; eassumption|].
      apply (IH a). eauto.
    + intros H. inversion H as [|? ? (Hs & Hl & Ht) Hrest]; subst.
      destruct (hour_body_returns solar load battery_capacity tariff v hour
                  Hcap Hs Hl Ht) as [v1 ->].
      cbn [mbind outcome_bind]. apply IH. exact Hrest.
Qed.

(** With a capacity other than zero the heuristic returns exactly when the
    solar forecast, the load forecast and the tariff each have an entry for
    every hour of the horizon; with a shorter list it raises. *)
Lemma _solve_simple_heuristic_returns_iff (solar load : list Q)
    (battery_capacity : Q) (tariff : list Q) (initial_soc : Q) (horizon : Z) :
  ~ battery_capacity == 0 ->
  (exists r, _solve_simple_heuristic solar load battery_capacity tariff
               initial_soc horizon = Returns r)
  <-> (Z.to_nat horizon <= length solar)%nat
      /\ (Z.to_nat horizon <= length load)%nat
      /\ (Z.to_nat horizon <= length tariff)%nat.
Proof.
  intros Hcap.
  pose proof (hour_loop_returns_iff solar load battery_capacity tariff
                (py_range horizon) Hcap (initial_locals initial_soc)) as Hloop.
  assert (Hrange : Forall (fun hour => (hour < length solar)%nat
                             /\ (hour < length load)%nat
                             /\ (hour < length tariff)%nat) (py_range horizon)
                   <-> (Z.to_nat horizon <= length solar)%nat
                       /\ (Z.to_nat horizon <= length load)%nat
                       /\ (Z.to_nat horizon <= length tariff)%nat).
  { unfold py_range. rewrite Forall_forall. split.
    - intros H. destruct (Z.to_nat horizon) as [|n] eqn:En; [lia|].
      specialize (H n). rewrite elem_of_seq in H. lia.
    - intros H hour Hin. rewrite elem_of_seq in Hin. lia. }
  rewrite <- Hrange, <- Hloop. unfold _solve_simple_heuristic. split.
  - intros [r H]. step_outcome; [eauto | discriminate H].
  - intros [v' ->]. cbn [mbind outcome_bind mret outcome_ret]. eauto.
Qed.

Lemma _solve_simple_heuristic_returns_iff_witness :
  (exists r, _solve_simple_heuristic [5; 1] [1; 2] 10 [1; 9] 50 2 = Returns r)
  <-> (Z.to_nat 2 <= length [5; 1])%nat
      /\ (Z.to_nat 2 <= length [1; 2])%nat
      /\ (Z.to_nat 2 <= length [1; 9])%nat.
Proof.
  apply (_solve_simple_heuristic_returns_iff [5; 1] [1; 2] 10 [1; 9] 50 2).
  discriminate.
Defined.

(** X19: For a capacity other than zero and forecasts that can be padded, the
    call succeeds exactly when the tariff covers the horizon: always with
    the default tariff, and with a given tariff when it has at least
    [horizon_hours] entries.  A shorter tariff gives the fallback. *)
Lemma optimize_energy_schedule_success_iff
    (self : SolverBridge) (time : nat -> Q) (solar_forecast load_forecast : list Q)
    (battery_capacity initial_soc : Q) (grid_tariff : option (list Q))
    (horizon_hours : Z) :
  ~ battery_capacity == 0 ->
  (0 <= horizon_hours)%Z ->
  (horizon_hours = 0)%Z \/ solar_forecast <> [] ->
  (horizon_hours = 0)%Z \/ load_forecast <> [] ->
  exists (r : OptimizationResult) (self' : SolverBridge),
    optimize_energy_schedule self time solar_forecast load_forecast
      battery_capacity initial_soc grid_tariff horizon_hours = Returns (r, self')
    /\ (success r = true <->
        match grid_tariff with
        | None => True
        | Some tariff => (Z.to_nat horizon_hours <= length tariff)%nat
        end).
Proof.
  intros Hcap Hh Hs Hl.
  destruct (optimize_energy_schedule_after_padding self time solar_forecast
              load_forecast battery_capacity initial_soc grid_tariff horizon_hours
              _ _ (_pad_forecast_padded _ _ Hh Hs) (_pad_forecast_padded _ _ Hh Hl))
    as (r & self' & Hr & Hcase).
  exists r, self'. split; [exact Hr|]. cbn zeta in Hcase.
  pose proof (_solve_simple_heuristic_returns_iff (padded solar_forecast horizon_hours)
                (padded load_forecast horizon_hours) battery_capacity
                (default (_generate_default_tariff horizon_hours) grid_tariff)
                initial_soc horizon_hours Hcap) as Hiff.
  rewrite !padded_length in Hiff by assumption.
  assert (Hcover : (Z.to_nat horizon_hours
                    <= length (default (_generate_default_tariff horizon_hours)
                                 grid_tariff))%nat
                   <-> match grid_tariff with
                       | None => True
                       | Some tariff => (Z.to_nat horizon_hours <= length tariff)%nat
                       end).
  { destruct grid_tariff as [tariff|]; cbn [default from_option id]; [tauto|].
    rewrite _generate_default_tariff_length. intuition lia. }
  rewrite <- Hcover.
  destruct (_solve_simple_heuristic (padded solar_forecast horizon_hours)
              (padded load_forecast horizon_hours) battery_capacity
              (default (_generate_default_tariff horizon_hours) grid_tariff)
              initial_soc horizon_hours) as [r0|e].
  - destruct Hcase as [-> _]. split; [intros _|reflexivity].
    apply Hiff. eauto.
  - destruct Hcase as [-> _]. split; [discriminate|].
    intros H. assert (Hex : exists r1 : OptimizationResult, Raises e = Returns r1).
    { apply Hiff. repeat split; (lia || exact H). }
    destruct Hex as [r1 Hr1]. discriminate Hr1.
Qed.

Lemma optimize_energy_schedule_success_iff_witness :
  exists (r : OptimizationResult) (self' : SolverBridge),
    optimize_energy_schedule (solver_bridge.__init__ SIMPLE) (fun _ => 0)
      [5; 1] [1; 2] 10 50 (Some [1]) 2 = Returns (r, self')
    /\ (success r = true <-> (Z.to_nat 2 <= length [1 : Q])%nat).
Proof.
  apply (optimize_energy_schedule_success_iff (solver_bridge.__init__ SIMPLE)
           (fun _ => 0) [5; 1] [1; 2] 10 50 (Some [1]) 2).
  - discriminate.
  - lia.
  - right. discriminate.
  - right. discriminate.
Defined.

(** *** The schedules *)












(** *** Cost against the baseline *)







(** *** How far the state of charge can move *)





(** In that run one hour of discharge takes the SOC from 60 to below 20. *)
Example soc_falls_below_twenty :
  exists v : locals,
    hour_trace [0] [100] 10 [9; 1; 1; 1] (py_range 1) (initial_locals 60) = [v]
    /\ soc v < 20.
Proof. eexists. split; [vm_compute; reflexivity | reflexivity]. Qed.

(** *** The counters of the bridge and the metrics *)

(** X24: What one returning call does to the bridge: a success adds one to
    [solve_count] and its measured time to [total_solve_time]; a fallback adds
    one to [failed_solves] only, so [solve_count] counts successes, not
    calls.  The measured time is the difference of the two clock readings,
    in milliseconds. *)
Lemma optimize_energy_schedule_counters
    (self self' : SolverBridge) (time : nat -> Q)
    (solar_forecast load_forecast : list Q) (battery_capacity initial_soc : Q)
    (grid_tariff : option (list Q)) (horizon_hours : Z) (r : OptimizationResult) :
  optimize_energy_schedule self time solar_forecast load_forecast
    battery_capacity initial_soc grid_tariff horizon_hours = Returns (r, self') ->
  preferred_solver self' = preferred_solver self
  /\ solve_time_ms r = (time 1%nat - time 0%nat) * 1000
  /\ if success r
     then solve_count self' = (solve_count self + 1)%Z
          /\ failed_solves self' = failed_solves self
          /\ total_solve_time self' = total_solve_time self + solve_time_ms r
     else solve_count self' = solve_count self
          /\ failed_solves self' = (failed_solves self + 1)%Z
          /\ total_solve_time self' = total_solve_time self.
Proof.
  unfold optimize_energy_schedule. intros H.
  do 2 (step_outcome; [|discriminate H]).
  unfold _solve_simple_heuristic in H.
  destruct (hour_loop a a0 battery_capacity _ (py_range horizon_hours)
              (initial_locals initial_soc)) as [v|e];
    cbn [mbind outcome_bind mret outcome_ret try_except] in H;
    inversion H; subst; clear H; cbn; auto.
Qed.

Lemma optimize_energy_schedule_counters_witness :
  exists (r : OptimizationResult) (self' : SolverBridge),
    optimize_energy_schedule (solver_bridge.__init__ SIMPLE)
      (fun n => inject_Z (Z.of_nat n)) [5; 1] [1; 2] 0 50 None 2 = Returns (r, self')
    /\ preferred_solver self' = SIMPLE
    /\ solve_time_ms r = (inject_Z 1 - inject_Z 0) * 1000
    /\ if success r
       then solve_count self' = (0 + 1)%Z /\ failed_solves self' = 0%Z
            /\ total_solve_time self' = 0 + solve_time_ms r
       else solve_count self' = 0%Z /\ failed_solves self' = (0 + 1)%Z
            /\ total_solve_time self' = 0.
Proof.
  do 2 eexists. split; [vm_compute; reflexivity|].
  eapply (optimize_energy_schedule_counters (solver_bridge.__init__ SIMPLE) _
            (fun n => inject_Z (Z.of_nat n)) [5; 1] [1; 2] 0 50 None 2).
  vm_compute. reflexivity.
Defined.

Lemma after_call_counters (self : SolverBridge) (rq : request) :
  (solve_count self <= solve_count (after_call self rq))%Z
  /\ (failed_solves self <= failed_solves (after_call self rq))%Z
  /\ (solve_count (after_call self rq) + failed_solves (after_call self rq)
      <= solve_count self + failed_solves self + 1)%Z.
Proof.
  unfold after_call, call_optimize.
  destruct (optimize_energy_schedule self (req_time rq) (req_solar_forecast rq)
              (req_load_forecast rq) (req_battery_capacity rq) (req_initial_soc rq)
              (req_grid_tariff rq) (req_horizon_hours rq))
    as [[r self']|e] eqn:E; [|lia].
  unfold optimize_energy_schedule in E.
  do 2 (step_outcome; [|discriminate E]).
  unfold _solve_simple_heuristic in E.
  destruct (hour_loop a a0 (req_battery_capacity rq) _
              (py_range (req_horizon_hours rq))
              (initial_locals (req_initial_soc rq))) as [v|e];
    cbn [mbind outcome_bind mret outcome_ret try_except] in E;
    inversion E; subst; clear E; cbn; lia.
Qed.

Lemma fold_after_call_counters (rqs : list request) :
  forall self : SolverBridge,
    let self' := fold_left after_call rqs self in
    (solve_count self <= solve_count self')%Z
    /\ (failed_solves self <= failed_solves self')%Z
    /\ (solve_count self' + failed_solves self'
        <= solve_count self + failed_solves self + Z.of_nat (length rqs))%Z.
Proof.
  induction rqs as [|rq rqs IH]; intros self; simpl; [lia|].
  specialize (IH (after_call self rq)). cbn zeta in IH.
  pose proof (after_call_counters self rq). lia.
Qed.

(** X25: The metrics after any sequence of calls on a new bridge: [total_solves]
    and [failed_solves] are not negative and together count at most the calls
    made; [success_rate_pct] is never above 100, and when there was a success
    it is [100 * (total_solves - failed_solves) / total_solves], the failures
    being subtracted from the successes, not from the calls. *)
Lemma get_performance_metrics_after_calls (preferred : SolverType)
    (rqs : list request) :
  let m := get_performance_metrics (after_calls preferred rqs) in
  (0 <= total_solves m)%Z
  /\ (0 <= metric_failed_solves m)%Z
  /\ (total_solves m + metric_failed_solves m <= Z.of_nat (length rqs))%Z
  /\ success_rate_pct m <= 100
  /\ ((0 < total_solves m)%Z ->
      success_rate_pct m * inject_Z (total_solves m) ==
      100 * inject_Z (total_solves m - metric_failed_solves m))
  /\ ((total_solves m <= 0)%Z ->
      success_rate_pct m = 0 /\ avg_solve_time_ms m = 0).
Proof.
  destruct (fold_after_call_counters rqs (solver_bridge.__init__ preferred))
    as (Hs & Hf & Hsum).
  cbn zeta in *. fold (after_calls preferred rqs) in Hs, Hf, Hsum.
  cbn [solver_bridge.__init__ solve_count failed_solves] in Hs, Hf, Hsum.
  unfold get_performance_metrics.
  cbn [total_solves metric_failed_solves success_rate_pct avg_solve_time_ms].
  set (b := after_calls preferred rqs) in *.
  split; [exact Hs|]. split; [exact Hf|]. split; [lia|].
  destruct (0 <? solve_count b)%Z eqn:E.
  - apply Z.ltb_lt in E.
    assert (Hpos : 0 < inject_Z (solve_count b))
      by (unfold Qlt; simpl; lia).
    assert (Hrate : inject_Z (solve_count b - failed_solves b)
                    <= 1 * inject_Z (solve_count b)).
    { rewrite Qmult_1_l. rewrite <- Zle_Qle. lia. }
    pose proof (Qle_shift_div_r _ _ _ Hpos Hrate) as Hdiv.
    split; [lra|]. split; [|lia].
    intros _. field. lra.
  - apply Z.ltb_ge in E. split; [discriminate|]. split; [lia | auto].
Qed.

